(** * Calibration-event extraction and idempotent SQL emission

    A shallow embedding of the historical pipeline of
    [tools/scripts/generate_cert_calibrations.py]: the Spanish date
    extractor, the period-column resolver, month arithmetic, the event
    builder ([iter_events]) and the SQL emitter ([build_sql]), followed by
    the properties of the specification that concern them.

    Modelling conventions.
    - A Python [str] is a [string] whose characters are Unicode code points
      in the Latin-1 range U+0000..U+00FF, one [ascii] per code point.  All
      the text the script tests for (digits, separators, the accented
      vowels of the date pattern, the period names) lives in that range.
      Literals of this file that contain an accented letter are written
      through [u8], which decodes the UTF-8 bytes of the source text.
    - A Python [int] is a [Z].  A Python [float] is a binary64 value,
      [pyfloat], kept as sign, integer mantissa and binary exponent.
    - Raising is explicit: a computation returns [Ok v] or [Raise e].
    - [csv.reader] is a library: a file is given by the rows the reader
      yields for it, each row a list of cells. *)

From Stdlib Require Import ZArith List String Ascii Bool Lia.
From Stdlib Require Import Permutation Sorted DecimalString.
Import ListNotations.

Local Open Scope string_scope.
Local Open Scope list_scope.
Local Open Scope Z_scope.

(** ** Exceptions *)

Inductive exn_class : Type :=
| FileNotFoundError
| ValueError
| OverflowError
| StopIteration
| IndexError
| KeyError.

(** [exn_msg] is the message where the script supplies one; the wording of
    messages produced by the interpreter itself is not modelled. *)
Record exn : Type := Exn { exn_cls : exn_class; exn_msg : option string }.

Inductive result (A : Type) : Type :=
| Ok (v : A)
| Raise (e : exn).
Arguments Ok {A} v.
Arguments Raise {A} e.

Definition bind {A B : Type} (m : result A) (k : A -> result B) : result B :=
  match m with
  | Ok v => k v
  | Raise e => Raise e
  end.

Notation "x <- m ;; k" := (bind m (fun x => k))
  (at level 61, m at next level, right associativity).

Definition exn_class_eqb (a b : exn_class) : bool :=
  match a, b with
  | FileNotFoundError, FileNotFoundError
  | ValueError, ValueError
  | OverflowError, OverflowError
  | StopIteration, StopIteration
  | IndexError, IndexError
  | KeyError, KeyError => true
  | _, _ => false
  end.

(** [try: m except cls: h] *)
Definition try_except {A : Type} (m : result A) (cls : exn_class)
    (h : result A) : result A :=
  match m with
  | Ok v => Ok v
  | Raise e => if exn_class_eqb (exn_cls e) cls then h else Raise e
  end.

Definition builtin_error {A : Type} (cls : exn_class) : result A :=
  Raise (Exn cls None).

(** ** Text *)

Module Text.

Definition code (c : ascii) : Z := Z.of_N (N_of_ascii c).

Definition in_range (lo hi : Z) (c : ascii) : bool :=
  (lo <=? code c) && (code c <=? hi).

(** [str.isspace] on a single Latin-1 character: U+0009..U+000D,
    U+001C..U+0020, U+0085 and U+00A0. *)
Definition is_space (c : ascii) : bool :=
  in_range 9 13 c || in_range 28 32 c || (code c =? 133) || (code c =? 160).

Fixpoint lstrip (s : string) : string :=
  match s with
  | String c r => if is_space c then lstrip r else s
  | EmptyString => EmptyString
  end.

Fixpoint rstrip (s : string) : string :=
  match s with
  | String c r =>
      match rstrip r with
      | EmptyString => if is_space c then EmptyString else String c EmptyString
      | r' => String c r'
      end
  | EmptyString => EmptyString
  end.

(** [s.strip()] *)
Definition strip (s : string) : string := rstrip (lstrip s).

(** Trimming of the characters a predicate picks, for the readers of
    numbers, whose notion of whitespace is not that of [str.strip]. *)
Fixpoint lstrip_by (p : ascii -> bool) (s : string) : string :=
  match s with
  | String c r => if p c then lstrip_by p r else s
  | EmptyString => EmptyString
  end.

Fixpoint rstrip_by (p : ascii -> bool) (s : string) : string :=
  match s with
  | String c r =>
      match rstrip_by p r with
      | EmptyString => if p c then EmptyString else String c EmptyString
      | r' => String c r'
      end
  | EmptyString => EmptyString
  end.

Definition strip_by (p : ascii -> bool) (s : string) : string :=
  rstrip_by p (lstrip_by p s).

(** Decoder for the literals of this file: the source text is UTF-8, so a
    Latin-1 character above U+007F arrives as the two bytes
    [110000xx 10yyyyyy]; they are folded back into the code point. *)
Fixpoint u8 (s : string) : string :=
  match s with
  | String c1 (String c2 r as t) =>
      if in_range 194 195 c1 && in_range 128 191 c2
      then String (ascii_of_N (Z.to_N ((code c1 - 192) * 64 + (code c2 - 128))))
                  (u8 r)
      else String c1 (u8 t)
  | _ => s
  end.

(** [x in (set of strings)] *)
Definition mem (x : string) (l : list string) : bool :=
  existsb (String.eqb x) l.

(** Code points of a text, for results that may leave Latin-1. *)
Definition codes (s : string) : list Z := map code (list_ascii_of_string s).

(** [str.upper] character by character (full case mapping): [a-z] and
    the Latin-1 lower-case letters move down by 32; the micro sign goes to
    U+039C, the sharp s to "SS" and y-diaeresis to U+0178. *)
Definition upper_char (c : ascii) : list Z :=
  let n := code c in
  if in_range 97 122 c then [n - 32]
  else if n =? 181 then [924]
  else if n =? 223 then [83; 83]
  else if n =? 255 then [376]
  else if in_range 224 254 c && negb (n =? 247) then [n - 32]
  else [n].

Definition upper (s : string) : list Z :=
  flat_map upper_char (list_ascii_of_string s).

(** [s.replace(old, new)] where [old] is a single character, on strings
    and on sequences of code points. *)
Fixpoint replace_char (old : ascii) (new : string) (s : string) : string :=
  match s with
  | String c r =>
      if Ascii.eqb c old then (new ++ replace_char old new r)%string
      else String c (replace_char old new r)
  | EmptyString => EmptyString
  end.

Definition replace_code (old : Z) (new : list Z) (s : list Z) : list Z :=
  flat_map (fun c => if c =? old then new else [c]) s.

(** ["sep".join(parts)] *)
Fixpoint join (sep : string) (parts : list string) : string :=
  match parts with
  | [] => EmptyString
  | [p] => p
  | p :: rest => (p ++ sep ++ join sep rest)%string
  end.

(** [str(n)] for an [int]. *)
Definition str_of_Z (n : Z) : string := NilZero.string_of_int (Z.to_int n).

(** ["%0<w>d" % n] for [n >= 0]: left-padded with zeros to width [w]. *)
Fixpoint zeros (k : nat) : string :=
  match k with
  | O => EmptyString
  | S k' => String "0"%char (zeros k')
  end.

Definition zfill (w : nat) (n : Z) : string :=
  let s := str_of_Z n in
  (zeros (w - String.length s) ++ s)%string.

(** Every character of [s] satisfies [p]. *)
Fixpoint all_chars (p : ascii -> bool) (s : string) : bool :=
  match s with
  | String c r => p c && all_chars p r
  | EmptyString => true
  end.

(** Truth value of an [Optional[str]]: [None] and the empty string are
    false. *)
Definition truthy (v : option string) : bool :=
  match v with
  | Some (String _ _) => true
  | _ => false
  end.

End Text.

(** ** Numbers from text *)

Module Num.

Import Text.

Definition is_digit (c : ascii) : bool := in_range 48 57 c.

Definition digit_val (c : ascii) : Z := code c - 48.

(** A [digitpart] of the language reference: decimal digits, with single
    underscores allowed between two digits.  [after_digit] tells whether
    the previous character was a digit; the result is the value read and
    the number of digits. *)
Fixpoint digitpart (after_digit : bool) (acc : Z) (n : Z) (s : string)
    : option (Z * Z) :=
  match s with
  | EmptyString => if after_digit then Some (acc, n) else None
  | String c r =>
      if is_digit c then digitpart true (10 * acc + digit_val c) (n + 1) r
      else if Ascii.eqb c "_" && after_digit then digitpart false acc n r
      else None
  end.

Definition split_sign (s : string) : bool * string :=
  match s with
  | String "-" r => (true, r)
  | String "+" r => (false, r)
  | _ => (false, s)
  end.

Definition signed (neg : bool) (v : Z) : Z := if neg then - v else v.

(** The whitespace [int] and [float] skip around a number: the ASCII
    blanks U+0009..U+000D and U+0020, and the Latin-1 spaces U+0085 and
    U+00A0, which the readers first turn into blanks.  The separators
    U+001C..U+001F, which [str.strip] removes, are not among them. *)
Definition is_space_num (c : ascii) : bool :=
  in_range 9 13 c || (code c =? 32) || (code c =? 133) || (code c =? 160).

Definition strip_num (s : string) : string := strip_by is_space_num s.

(** [sys.int_max_str_digits], at its default. *)
Definition MAX_STR_DIGITS : Z := 4300.

(** [int(s)] for a string, base 10: surrounding whitespace, an optional
    sign, a digitpart of at most [MAX_STR_DIGITS] digits; anything else
    is a [ValueError]. *)
Definition int_of_str (s : string) : result Z :=
  let (neg, body) := split_sign (strip_num s) in
  match digitpart false 0 0 body with
  | Some (v, n) =>
      if MAX_STR_DIGITS <? n then builtin_error ValueError
      else Ok (signed neg v)
  | None => builtin_error ValueError
  end.

(** *** binary64 *)

(** A float: [FFinite neg m e] is [(-1)^neg * m * 2^e] with [0 <= m]. *)
Inductive pyfloat : Type :=
| FFinite (neg : bool) (m : Z) (e : Z)
| FInf (neg : bool)
| FNan.

(** Nearest integer to [n / d], ties to even ([0 <= n], [0 < d]). *)
Definition round_half_even (n d : Z) : Z :=
  let q := n / d in
  let r := n mod d in
  if 2 * r <? d then q
  else if d <? 2 * r then q + 1
  else if Z.even q then q else q + 1.

(** [floor (log2 (p / q))] for [0 < p], [0 < q]. *)
Definition floor_log2_ratio (p q : Z) : Z :=
  let e0 := Z.log2 p - Z.log2 q in
  let ge :=
    if 0 <=? e0 then q * 2 ^ e0 <=? p else q <=? p * 2 ^ (- e0) in
  if ge then e0 else e0 - 1.

(** The binary64 value nearest to [p / q] (round to nearest, ties to
    even; 53-bit mantissa, least exponent -1074, overflow to infinity),
    as the correctly rounded conversion behind [float(str)] returns it. *)
Definition round_binary64 (neg : bool) (p q : Z) : pyfloat :=
  if p =? 0 then FFinite neg 0 0
  else
    let ex := Z.max (floor_log2_ratio p q - 52) (-1074) in
    let m :=
      if 0 <=? ex then round_half_even p (q * 2 ^ ex)
      else round_half_even (p * 2 ^ (- ex)) q in
    if 2 ^ 1024 <=? m * 2 ^ (Z.max ex 0) then FInf neg
    else FFinite neg m ex.

Definition lower_char (c : ascii) : ascii :=
  if in_range 65 90 c then ascii_of_N (Z.to_N (code c + 32)) else c.

Fixpoint lower_ascii (s : string) : string :=
  match s with
  | String c r => String (lower_char c) (lower_ascii r)
  | EmptyString => EmptyString
  end.

(** Longest prefix of digits and underscores, and what follows it. *)
Fixpoint span_digits (s : string) : string * string :=
  match s with
  | String c r =>
      if is_digit c || Ascii.eqb c "_"
      then let (a, b) := span_digits r in (String c a, b)
      else (EmptyString, s)
  | EmptyString => (EmptyString, EmptyString)
  end.

(** A digitpart that may be absent: value and number of digits. *)
Definition opt_digitpart (s : string) : option (Z * Z) :=
  match s with
  | EmptyString => Some (0, 0)
  | _ => digitpart false 0 0 s
  end.

(** The exponent suffix of a float literal: empty, or [e]/[E], an
    optional sign and a digitpart. *)
Definition exponent (s : string) : option Z :=
  match s with
  | EmptyString => Some 0
  | String c r =>
      if Ascii.eqb c "e" || Ascii.eqb c "E" then
        let (neg, body) := split_sign r in
        match digitpart false 0 0 body with
        | Some (v, _) => Some (signed neg v)
        | None => None
        end
      else None
  end.

(** [floatnumber]: [[digitpart] "." digitpart | digitpart ["."]] followed
    by an optional exponent; the result is [(d, k)] for the value
    [d * 10^k]. *)
Definition floatnumber (s : string) : option (Z * Z) :=
  let (ip, rest) := span_digits s in
  match rest with
  | String "." rest' =>
      let (fp, tail) := span_digits rest' in
      match opt_digitpart ip, opt_digitpart fp, exponent tail with
      | Some (iv, il), Some (fv, fl), Some ex =>
          if (il =? 0) && (fl =? 0) then None
          else Some (iv * 10 ^ fl + fv, ex - fl)
      | _, _, _ => None
      end
  | _ =>
      match digitpart false 0 0 ip, exponent rest with
      | Some (iv, _), Some ex => Some (iv, ex)
      | _, _ => None
      end
  end.

(** [float(s)] for a string: surrounding whitespace, an optional sign,
    then [inf], [infinity] or [nan] in any letter case, or a
    [floatnumber]; anything else is a [ValueError]. *)
Definition float_of_str (s : string) : result pyfloat :=
  let (neg, body) := split_sign (strip_num s) in
  let low := lower_ascii body in
  if String.eqb low "inf" || String.eqb low "infinity" then Ok (FInf neg)
  else if String.eqb low "nan" then Ok FNan
  else
    match floatnumber body with
    | Some (d, k) =>
        Ok (if 0 <=? k then round_binary64 neg (d * 10 ^ k) 1
            else round_binary64 neg d (10 ^ (- k)))
    | None => builtin_error ValueError
    end.

(** [int(x)] for a float: truncation toward zero; an infinity is an
    [OverflowError], a NaN a [ValueError]. *)
Definition int_of_float (x : pyfloat) : result Z :=
  match x with
  | FFinite neg m e =>
      Ok (signed neg (if 0 <=? e then m * 2 ^ e else m / 2 ^ (- e)))
  | FInf _ => builtin_error OverflowError
  | FNan => builtin_error ValueError
  end.

End Num.

(** ** Regular expressions

    The fragment [re] needs for [DATE_REGEX]: a sequence of character
    classes, each with a greedy bounded repetition and possibly a capturing
    group around it, matched by backtracking as [re] does (the longest
    repetition is tried first, then shorter ones down to the minimum). *)

Module Regex.

Record item : Type := Item {
  cls : ascii -> bool;
  rep_min : nat;
  rep_max : option nat;   (* [None]: unbounded *)
  group : bool
}.

(** Number of leading characters of [s] in the class, at most [cap]. *)
Fixpoint run (p : ascii -> bool) (cap : option nat) (s : string) : nat :=
  match s with
  | String c r =>
      if p c then
        match cap with
        | Some O => O
        | Some (S k) => S (run p (Some k) r)
        | None => S (run p None r)
        end
      else O
  | EmptyString => O
  end.

Fixpoint take (n : nat) (s : string) : string :=
  match n, s with
  | S k, String c r => String c (take k r)
  | _, _ => EmptyString
  end.

Fixpoint drop (n : nat) (s : string) : string :=
  match n, s with
  | S k, String _ r => drop k r
  | _, _ => s
  end.

(** First success of [f k], trying [k = n, n - 1, ..., lo]. *)
Fixpoint first_down {A : Type} (f : nat -> option A) (lo n : nat)
    : option A :=
  if (n <? lo)%nat then None
  else
    match f n with
    | Some x => Some x
    | None =>
        match n with
        | O => None
        | S k => first_down f lo k
        end
    end.

(** Match the items at the start of [s]; the captured groups in order. *)
Fixpoint match_here (items : list item) (s : string)
    : option (list string) :=
  match items with
  | [] => Some []
  | it :: rest =>
      first_down
        (fun k =>
           match match_here rest (drop k s) with
           | Some gs => Some (if group it then take k s :: gs else gs)
           | None => None
           end)
        (rep_min it) (run (cls it) (rep_max it) s)
  end.

(** [pattern.search(s)]: the match at the leftmost position that has
    one. *)
Fixpoint search (items : list item) (s : string) : option (list string) :=
  match match_here items s with
  | Some gs => Some gs
  | None =>
      match s with
      | String _ r => search items r
      | EmptyString => None
      end
  end.

(** [n] is within the maximal repetition. *)
Definition within (cap : option nat) (n : nat) : Prop :=
  match cap with
  | Some k => (n <= k)%nat
  | None => True
  end.

(** What a successful match promises about its groups: one text per
    capturing item, made of characters of the item's class, at least as
    long as its minimal repetition and no longer than the maximal one. *)
Fixpoint groups_ok (items : list item) (gs : list string) : Prop :=
  match items with
  | [] => gs = []
  | it :: rest =>
      if group it then
        match gs with
        | g :: gs' =>
            Text.all_chars (cls it) g = true /\
            ((rep_min it <= String.length g)%nat /\
             within (rep_max it) (String.length g)) /\
            groups_ok rest gs'
        | [] => False
        end
      else groups_ok rest gs
  end.

End Regex.

(** ** Calendar: [datetime.date] and [calendar.monthrange] *)

Module Calendar.

Import Text.

Record date : Type := Date { year : Z; month : Z; day : Z }.

Definition MINYEAR : Z := 1.
Definition MAXYEAR : Z := 9999.

Definition isleap (y : Z) : bool :=
  (y mod 4 =? 0) && (negb (y mod 100 =? 0) || (y mod 400 =? 0)).

(** [calendar.mdays] *)
Definition mdays (m : Z) : Z :=
  if m =? 2 then 28
  else if (m =? 4) || (m =? 6) || (m =? 9) || (m =? 11) then 30
  else 31.

(** Length of month [m] of year [y]: [mdays[m]], and one more for the
    February of a leap year. *)
Definition month_length (y m : Z) : Z :=
  mdays m + (if (m =? 2) && isleap y then 1 else 0).

(** [calendar.monthrange(year, month)[1]]: the number of days of the
    month; a month outside 1..12 is an [IllegalMonthError], a subclass of
    [ValueError].  The year is not range-checked there. *)
Definition monthrange_days (y m : Z) : result Z :=
  if (1 <=? m) && (m <=? 12)
  then Ok (month_length y m)
  else builtin_error ValueError.

(** The predicate [datetime.date] checks on its arguments. *)
Definition valid_ymd (y m d : Z) : bool :=
  (MINYEAR <=? y) && (y <=? MAXYEAR) && (1 <=? m) && (m <=? 12) &&
  (1 <=? d) && (d <=? month_length y m).

(** The range of a C [int], in which the constructor of [datetime.date]
    takes its three arguments. *)
Definition INT_MIN : Z := - 2 ^ 31.
Definition INT_MAX : Z := 2 ^ 31 - 1.

Definition fits_int (n : Z) : bool := (INT_MIN <=? n) && (n <=? INT_MAX).

(** [dt.date(y, m, d)]: an argument that does not fit a C [int] is an
    [OverflowError]; arguments that fit but are no date of the calendar
    are a [ValueError]. *)
Definition date_new (y m d : Z) : result date :=
  if fits_int y && fits_int m && fits_int d then
    if valid_ymd y m d then Ok (Date y m d) else builtin_error ValueError
  else builtin_error OverflowError.

Definition valid_date (x : date) : bool :=
  valid_ymd (year x) (month x) (day x).

(** [date.isoformat()]: ["%04d-%02d-%02d"] *)
Definition isoformat (x : date) : string :=
  (zfill 4 (year x) ++ "-" ++ zfill 2 (month x) ++ "-" ++ zfill 2 (day x))%string.

(** Ordering of dates, as [date.__lt__]/[__eq__] give it to tuple
    comparison: by year, then month, then day. *)
Definition date_compare (a b : date) : comparison :=
  match year a ?= year b with
  | Eq =>
      match month a ?= month b with
      | Eq => day a ?= day b
      | c => c
      end
  | c => c
  end.

End Calendar.

(** ** [str.format] with named replacement fields

    The template syntax used by [build_sql]: literal text and [{name}]
    fields (no brace escapes, conversions or format specifications occur in
    the script's template). *)

Module Format.

Inductive segment : Type :=
| Lit (text : string)
| Field (name : string).

(** Text before the first occurrence of [c], and the text after it. *)
Fixpoint split_at (c : ascii) (s : string) : option (string * string) :=
  match s with
  | String a r =>
      if Ascii.eqb a c then Some (EmptyString, r)
      else
        match split_at c r with
        | Some (x, y) => Some (String a x, y)
        | None => None
        end
  | EmptyString => None
  end.

Fixpoint parse (fuel : nat) (s : string) : result (list segment) :=
  match fuel with
  | O => Ok [Lit s]
  | S f =>
      match split_at "{" s with
      | None => Ok [Lit s]
      | Some (lit, rest) =>
          match split_at "}" rest with
          | None => builtin_error ValueError
          | Some (name, rest') =>
              segs <- parse f rest' ;;
              Ok (Lit lit :: Field name :: segs)
          end
      end
  end.

Fixpoint lookup (name : string) (kw : list (string * string))
    : result string :=
  match kw with
  | (k, v) :: rest => if String.eqb k name then Ok v else lookup name rest
  | [] => builtin_error KeyError
  end.

Fixpoint render (segs : list segment) (kw : list (string * string))
    : result string :=
  match segs with
  | [] => Ok EmptyString
  | Lit t :: rest => r <- render rest kw ;; Ok (t ++ r)%string
  | Field n :: rest =>
      v <- lookup n kw ;; r <- render rest kw ;; Ok (v ++ r)%string
  end.

(** [template.format] with keyword arguments [kw] *)
Definition format (template : string) (kw : list (string * string))
    : result string :=
  segs <- parse (String.length template) template ;;
  render segs kw.

End Format.

(** ** The script: [generate_cert_calibrations.py] *)

Module Cert.

Import Text Num Calendar.

(** [SPANISH_MONTHS], keyed by the code points of the abbreviation. *)
Definition SPANISH_MONTHS : list (list Z * Z) :=
  [ (codes "ENE", 1); (codes "FEB", 2); (codes "MAR", 3); (codes "ABR", 4);
    (codes "MAY", 5); (codes "JUN", 6); (codes "JUL", 7); (codes "AGO", 8);
    (codes "SEP", 9); (codes "SET", 9); (codes "OCT", 10); (codes "NOV", 11);
    (codes "DIC", 12) ].

Definition PERIOD_MAP : list (list Z * string) :=
  [ (codes "PERIODO 1", "P1"); (codes "PERIODO 2", "P2");
    (codes "EXTRAORDINARIO", "EXTRA") ].

Definition NA_VALUES : list string := [""; "NA"; "ND"; "N/A"; "null"; "NULL"].

Definition codes_eqb (a b : list Z) : bool :=
  if list_eq_dec Z.eq_dec a b then true else false.

(** [d.get(key)] *)
Fixpoint dict_get {V : Type} (d : list (list Z * V)) (key : list Z)
    : option V :=
  match d with
  | (k, v) :: rest => if codes_eqb k key then Some v else dict_get rest key
  | [] => None
  end.

(** [DATE_REGEX]:
    [(\d{1,2})[\-/]([A-Za-z<accented vowels>\.]+)[\-/](\d{2,4})] *)
Definition is_sep (c : ascii) : bool := (code c =? 45) || (code c =? 47).

Definition is_month_char (c : ascii) : bool :=
  in_range 65 90 c || in_range 97 122 c ||
  existsb (Z.eqb (code c)) [193; 201; 205; 211; 218; 225; 233; 237; 243; 250] ||
  (code c =? 46).

Definition DATE_REGEX : list Regex.item :=
  [ Regex.Item is_digit 1 (Some 2%nat) true;
    Regex.Item is_sep 1 (Some 1%nat) false;
    Regex.Item is_month_char 1 None true;
    Regex.Item is_sep 1 (Some 1%nat) false;
    Regex.Item is_digit 2 (Some 4%nat) true ].

Record CalibrationEvent : Type := Event {
  codigo : string;
  fecha : date;
  periodo : string;
  periodo_label : string;
  year : Z;
  requerimiento : option string;
  frecuencia_meses : option Z
}.

Definition normalize_text (value : option string) : option string :=
  match value with
  | None => None
  | Some v =>
      let clean := strip v in
      if mem clean NA_VALUES then None else Some clean
  end.

Definition extract_date (value : string) : result (option date) :=
  if negb (truthy (Some value)) then Ok None
  else
    match Regex.search DATE_REGEX value with
    | None => Ok None
    | Some [day_raw; month_raw; year_raw] =>
        day <- int_of_str day_raw ;;
        let month_key := upper (replace_char "." "" (strip month_raw)) in
        let month_key :=
          replace_code 218 [85] (replace_code 211 [79] (replace_code 205 [73]
            (replace_code 201 [69] (replace_code 193 [65] month_key)))) in
        match dict_get SPANISH_MONTHS month_key with
        | None => Ok None
        | Some month =>
            if month =? 0 then Ok None
            else
              year_int <- int_of_str year_raw ;;
              let year_int :=
                if year_int <? 100
                then year_int + (if year_int <=? 79 then 2000 else 1900)
                else year_int in
              try_except (d <- date_new year_int month day ;; Ok (Some d))
                         ValueError (Ok None)
        end
    | Some _ => builtin_error ValueError   (* unpacking [match.groups()] *)
    end.

Definition _days_in_month (y m : Z) : result Z := monthrange_days y m.

Definition add_months (base_date : date) (months : Z) : result date :=
  let month_index := Calendar.month base_date - 1 + months in
  let y := Calendar.year base_date + month_index / 12 in
  let m := month_index mod 12 + 1 in
  dim <- _days_in_month y m ;;
  let d := Z.min (Calendar.day base_date) dim in
  date_new y m d.

Definition sql_escape (value : string) : string :=
  replace_char "'" "''" value.

Definition row : Type := list string.

(** The reader is the list of rows it has not yielded yet; the result is
    the row found and the reader after it. *)
Fixpoint _next_relevant_row (reader : list row) : result (row * list row) :=
  match reader with
  | r :: rest =>
      if existsb (fun cell => truthy (Some (strip cell))) r
      then Ok (r, rest)
      else _next_relevant_row rest
  | [] => builtin_error StopIteration
  end.

(** [seq[i]] *)
Definition index {A : Type} (l : list A) (i : nat) : result A :=
  match nth_error l i with
  | Some x => Ok x
  | None => builtin_error IndexError
  end.

Definition base_columns : nat := 9.

(** An entry of [period_columns]: [(idx, period_key, period_label, year_int)]. *)
Definition period_column : Type := nat * string * string * Z.

(** Body of the loop over [enumerate(header_row)]: [None] is [continue]. *)
Definition resolve_column (year_row : row) (idx : nat) (label : string)
    : result (option period_column) :=
  if (idx <? base_columns)%nat then Ok None
  else
    let year_value :=
      normalize_text (if (idx <? List.length year_row)%nat
                      then nth_error year_row idx else None) in
    let period_label := normalize_text (Some label) in
    match year_value, period_label with
    | Some yv, Some pl =>
        if negb (truthy year_value) || negb (truthy period_label) then Ok None
        else
          match dict_get PERIOD_MAP (upper pl) with
          | Some period_key =>
              if negb (truthy (Some period_key)) then Ok None
              else
                try_except
                  (year_int <- int_of_str yv ;;
                   Ok (Some (idx, period_key, pl, year_int)))
                  ValueError (Ok None)
          | None => Ok None
          end
    | _, _ => Ok None
    end.

Fixpoint resolve_columns (year_row : row) (idx : nat) (header_row : row)
    (period_columns : list period_column) : result (list period_column) :=
  match header_row with
  | [] => Ok period_columns
  | label :: rest =>
      c <- resolve_column year_row idx label ;;
      resolve_columns year_row (S idx) rest
        (match c with
         | Some pc => period_columns ++ [pc]
         | None => period_columns
         end)
  end.

(** The frequency of a data row, from the normalised cell of column 8. *)
Definition parse_frecuencia (frecuencia_raw : option string)
    : result (option Z) :=
  match frecuencia_raw with
  | Some raw =>
      if truthy frecuencia_raw then
        try_except
          (x <- float_of_str raw ;; n <- int_of_float x ;; Ok (Some n))
          ValueError (Ok None)
      else Ok None
  | None => Ok None
  end.

(** Body of the loop over [period_columns] for one data row. *)
Definition cell_event (r : row) (cod : string) (req : option string)
    (freq : option Z) (pc : period_column) : result (option CalibrationEvent) :=
  let '(idx, per, per_label, year_int) := pc in
  if (List.length r <=? idx)%nat then Ok None
  else
    cell <- index r idx ;;
    match normalize_text (Some cell) with
    | Some celda =>
        if negb (truthy (Some celda)) then Ok None
        else
          f <- extract_date celda ;;
          match f with
          | Some d => Ok (Some (Event cod d per per_label year_int req freq))
          | None => Ok None
          end
    | None => Ok None
    end.

Fixpoint cells_events (r : row) (cod : string) (req : option string)
    (freq : option Z) (period_columns : list period_column)
    (events : list CalibrationEvent) : result (list CalibrationEvent) :=
  match period_columns with
  | [] => Ok events
  | pc :: rest =>
      e <- cell_event r cod req freq pc ;;
      cells_events r cod req freq rest
        (match e with
         | Some ev => events ++ [ev]
         | None => events
         end)
  end.

(** Body of the loop over the data rows: the events list after the row. *)
Definition row_events (period_columns : list period_column) (r : row)
    (events : list CalibrationEvent) : result (list CalibrationEvent) :=
  if negb (existsb (fun cell => truthy (normalize_text (Some cell))) r)
  then Ok events
  else if (List.length r <? base_columns)%nat then Ok events
  else
    c4 <- index r 4 ;;
    match normalize_text (Some c4) with
    | Some cod =>
        if negb (truthy (Some cod)) then Ok events
        else
          c7 <- index r 7 ;;
          let req := normalize_text (Some c7) in
          c8 <- index r 8 ;;
          freq <- parse_frecuencia (normalize_text (Some c8)) ;;
          cells_events r cod req freq period_columns events
    | None => Ok events
    end.

Fixpoint rows_events (period_columns : list period_column)
    (reader : list row) (events : list CalibrationEvent)
    : result (list CalibrationEvent) :=
  match reader with
  | [] => Ok events
  | r :: rest =>
      events' <- row_events period_columns r events ;;
      rows_events period_columns rest events'
  end.

(** The sort key [(e.codigo, e.fecha, e.periodo)] and the comparison of
    such tuples: the first component that differs decides. *)
Definition sort_key (e : CalibrationEvent) : string * date * string :=
  (codigo e, fecha e, periodo e).

Definition key_compare (a b : string * date * string) : comparison :=
  let '(c1, f1, p1) := a in
  let '(c2, f2, p2) := b in
  match String.compare c1 c2 with
  | Eq =>
      match date_compare f1 f2 with
      | Eq => String.compare p1 p2
      | c => c
      end
  | c => c
  end.

Definition key_le (a b : CalibrationEvent) : bool :=
  match key_compare (sort_key a) (sort_key b) with
  | Gt => false
  | _ => true
  end.

(** [sorted(events, key=...)].  Python's sort is stable, and the result
    of a stable sort is determined by the input and the key order alone;
    it is computed here by insertion, each element going before the
    first later element that is not smaller. *)
Fixpoint insert_event (e : CalibrationEvent) (l : list CalibrationEvent)
    : list CalibrationEvent :=
  match l with
  | [] => [e]
  | x :: t => if key_le e x then e :: l else x :: insert_event e t
  end.

Fixpoint sorted_events (l : list CalibrationEvent) : list CalibrationEvent :=
  match l with
  | [] => []
  | e :: t => insert_event e (sorted_events t)
  end.

(** The file system as [iter_events] sees it: the rows [csv.reader]
    yields for a path, or [None] when the path does not exist.  A path
    that exists but cannot be opened, decoded or parsed is outside this
    model. *)
Definition csv_files : Type := string -> option (list row).

Definition iter_events (fs : csv_files) (csv_path : string) (empresa_id : Z)
    : result (list CalibrationEvent) :=
  match fs csv_path with
  | None =>
      Raise (Exn FileNotFoundError
               (Some (u8 "No se encontró el archivo: " ++ csv_path)%string))
  | Some reader =>
      hdr <- try_except
               (yr <- _next_relevant_row reader ;;
                hr <- _next_relevant_row (snd yr) ;;
                Ok (fst yr, fst hr, snd hr))
               StopIteration
               (Raise (Exn ValueError
                  (Some "El CSV no contiene encabezados suficientes."))) ;;
      let '(year_row, header_row, reader) := hdr in
      period_columns <- resolve_columns year_row 0 header_row [] ;;
      events <- rows_events period_columns reader [] ;;
      Ok (sorted_events events)
  end.

(** *** The SQL emitter *)

Definition nl : string := String (ascii_of_nat 10) EmptyString.

Definition values_line : string :=
  ("SELECT @instrumento_id, {empresa_id}, '{tipo}', '{fecha}', '{periodo}', {fecha_proxima}, NULL, '{observaciones}' " ++
   "FROM DUAL WHERE @instrumento_id IS NOT NULL AND NOT EXISTS (" ++
   "SELECT 1 FROM calibraciones WHERE instrumento_id = @instrumento_id " ++
   "AND empresa_id = {empresa_id} AND fecha_calibracion = '{fecha}' AND periodo = '{periodo}'" ++
   ");")%string.

Definition insert_line : string :=
  ("INSERT INTO calibraciones (" ++
   "instrumento_id, empresa_id, tipo, fecha_calibracion, periodo, fecha_proxima, resultado, observaciones" ++
   ")")%string.

(** [event.frecuencia_meses and event.frecuencia_meses > 0] as a
    condition. *)
Definition has_frecuencia (f : option Z) : bool :=
  match f with
  | Some n => negb (n =? 0) && (0 <? n)
  | None => false
  end.

(** Body of the loop over the events: [lines] after the event. *)
Definition event_lines (empresa_id : Z) (lines : list string)
    (event : CalibrationEvent) : result (list string) :=
  fecha_proxima <-
    (match frecuencia_meses event with
     | Some n =>
         if has_frecuencia (frecuencia_meses event) then
           try_except (d <- add_months (fecha event) n ;; Ok (Some d))
                      ValueError (Ok None)
         else Ok None
     | None => Ok None
     end) ;;
  let observaciones_parts :=
    [ (periodo_label event ++ " " ++ str_of_Z (year event))%string;
      "Fuente: CERT_instrumentos_original_v2.csv" ] in
  let observaciones_parts :=
    match requerimiento event with
    | Some req =>
        if truthy (requerimiento event)
        then ("Requerimiento: " ++ req)%string :: observaciones_parts
        else observaciones_parts
    | None => observaciones_parts
    end in
  let observaciones := sql_escape (join ". " observaciones_parts) in
  let tipo :=
    match requerimiento event with
    | Some req =>
        if truthy (requerimiento event) then sql_escape req
        else u8 "Calibración programada"
    | None => u8 "Calibración programada"
    end in
  let lines :=
    lines ++
    [ ("SET @instrumento_id = (" ++
       "SELECT id FROM instrumentos WHERE codigo = '" ++
       sql_escape (codigo event) ++ "' " ++
       "AND empresa_id = " ++ str_of_Z empresa_id ++ " LIMIT 1);")%string ] in
  let lines := lines ++ [insert_line] in
  let fecha_sql := isoformat (fecha event) in
  let fecha_proxima_sql :=
    match fecha_proxima with
    | Some d => ("'" ++ isoformat d ++ "'")%string
    | None => "NULL"
    end in
  line <- Format.format values_line
            [ ("empresa_id", str_of_Z empresa_id);
              ("tipo", tipo);
              ("fecha", fecha_sql);
              ("periodo", periodo event);
              ("fecha_proxima", fecha_proxima_sql);
              ("observaciones", observaciones) ] ;;
  let lines := lines ++ [line] in
  Ok (lines ++ [EmptyString]).

Fixpoint events_lines (empresa_id : Z) (events : list CalibrationEvent)
    (lines : list string) : result (list string) :=
  match events with
  | [] => Ok lines
  | event :: rest =>
      lines' <- event_lines empresa_id lines event ;;
      events_lines empresa_id rest lines'
  end.

Definition build_sql (events : list CalibrationEvent) (empresa_id : Z)
    : result string :=
  match events with
  | [] => Ok ("-- No se detectaron eventos en el CSV proporcionado." ++ nl)%string
  | _ =>
      let lines :=
        [ "-- Calibraciones programadas generadas desde CERT_instrumentos_original_v2.csv";
          ("-- Empresa destino: " ++ str_of_Z empresa_id)%string;
          "START TRANSACTION;" ] in
      lines <- events_lines empresa_id events lines ;;
      let lines := lines ++ ["COMMIT;"] in
      let lines := lines ++ [EmptyString] in
      Ok (join nl lines)
  end.

(** *** The historical branch of [main]

    What a run leaves behind: the exception that ended it, if any, the
    files written (path and text, in order) and the report printed at
    the end.  Creating the output directory and writing the file are
    taken to succeed, and the banner printed on entry (its first
    character lies outside Latin-1) is not modelled. *)
Record run : Type := Run {
  raised : option exn;
  written : list (string * string);
  printed : list string
}.

Definition main_historical (fs : csv_files) (input output : string)
    (empresa_id : Z) : run :=
  match iter_events fs input empresa_id with
  | Raise e => Run (Some e) [] []
  | Ok events =>
      match build_sql events empresa_id with
      | Raise e => Run (Some e) [] []
      | Ok sql_output =>
          Run None [(output, sql_output)]
            [ ("Se generaron " ++ str_of_Z (Z.of_nat (List.length events)) ++
               " eventos en " ++ output ++ ". " ++
               u8 "Ejecuta este archivo en phpMyAdmin después de validar los datos.")%string ]
      end
  end.

End Cert.

(** ** Reference definitions

    Closed forms the proofs compare the loops of the script with. *)

Module Spec.

Import Text Num Calendar Cert.

(** The column [idx] of the two header rows as a period column: the
    index is past the fixed prefix, the year cell exists and, trimmed,
    reads as an integer, and the trimmed, upper-cased label is a period
    name. *)
Definition column_of (year_row : row) (idx : nat) (label : string)
    : option period_column :=
  if (idx <? base_columns)%nat then None
  else
    match nth_error year_row idx with
    | Some yc =>
        match int_of_str (strip yc),
              dict_get PERIOD_MAP (upper (strip label)) with
        | Ok y, Some key => Some (idx, key, strip label, y)
        | _, _ => None
        end
    | None => None
    end.

Definition opt_list {A : Type} (o : option A) : list A :=
  match o with
  | Some x => [x]
  | None => []
  end.

Fixpoint columns_from (year_row : row) (idx : nat) (header_row : row)
    : list period_column :=
  match header_row with
  | [] => []
  | label :: rest =>
      opt_list (column_of year_row idx label) ++
      columns_from year_row (S idx) rest
  end.

(** The event a data row yields for one period column, if any: the cell
    under the column exists, is not a sentinel, and holds a date. *)
Definition cell_of (r : row) (cod : string) (req : option string)
    (freq : option Z) (pc : period_column) : option CalibrationEvent :=
  let '(idx, per, per_label, year_int) := pc in
  match nth_error r idx with
  | Some cell =>
      match normalize_text (Some cell) with
      | Some celda =>
          match extract_date celda with
          | Ok (Some d) => Some (Event cod d per per_label year_int req freq)
          | _ => None
          end
      | None => None
      end
  | None => None
  end.

(** The events one data row adds. *)
Definition row_new (period_columns : list period_column) (r : row)
    : result (list CalibrationEvent) :=
  if negb (existsb (fun cell => truthy (normalize_text (Some cell))) r)
  then Ok []
  else if (List.length r <? base_columns)%nat then Ok []
  else
    match normalize_text (nth_error r 4) with
    | Some cod =>
        freq <- parse_frecuencia (normalize_text (nth_error r 8)) ;;
        Ok (flat_map
              (fun pc =>
                 opt_list (cell_of r cod (normalize_text (nth_error r 7)) freq pc))
              period_columns)
    | None => Ok []
    end.

(** The events a sequence of data rows adds, in reading order. *)
Fixpoint rows_new (period_columns : list period_column) (rows : list row)
    : result (list CalibrationEvent) :=
  match rows with
  | [] => Ok []
  | r :: rest =>
      a <- row_new period_columns r ;;
      b <- rows_new period_columns rest ;;
      Ok (a ++ b)
  end.

(** A cell whose trimmed text is one of [NA_VALUES]. *)
Definition sentinel (cell : string) : Prop := In (strip cell) NA_VALUES.

(** The year [extract_date] makes of the number [v] it reads: one below
    100 is taken for a year of the century, 2000 for 0..79 and 1900 for
    80..99. *)
Definition pivot (v : Z) : Z :=
  if v <? 100 then v + (if v <=? 79 then 2000 else 1900) else v.

(** The event on which [build_sql] fails: its frequency is positive and
    [add_months] raises the [OverflowError] of a year beyond a C [int],
    which the handler for [ValueError] lets through. *)
Definition overflows (e : CalibrationEvent) : bool :=
  match frecuencia_meses e with
  | Some n =>
      has_frecuencia (Some n) &&
      match add_months (fecha e) n with
      | Ok _ => false
      | Raise ex => exn_class_eqb (exn_cls ex) OverflowError
      end
  | None => false
  end.

(** The year [add_months] lands in, [months] after the date. *)
Definition due_year (d : date) (months : Z) : Z :=
  Calendar.year d + (Calendar.month d - 1 + months) / 12.

(** The event whose frequency is positive and whose projected date lies
    in a year beyond the largest C [int]. *)
Definition past_int_year (e : CalibrationEvent) : bool :=
  match frecuencia_meses e with
  | Some n => (0 <? n) && (INT_MAX <? due_year (fecha e) n)
  | None => false
  end.

(** The data row on which [iter_events] fails: it is long enough, its
    code cell is not absent, and its frequency cell, trimmed, is not
    absent and reads as an infinite float. *)
Definition infinite_frequency (r : row) : bool :=
  (base_columns <=? List.length r)%nat &&
  truthy (normalize_text (nth_error r 4)) &&
  match normalize_text (nth_error r 8) with
  | Some s =>
      match float_of_str s with
      | Ok (FInf _) => true
      | _ => false
      end
  | None => false
  end.

(** The projected next-due date of an event: present when the frequency
    is present and positive and the date [frecuencia_meses] months later
    exists. *)
Definition next_due (e : CalibrationEvent) : option date :=
  match frecuencia_meses e with
  | Some n =>
      if has_frecuencia (Some n) then
        match add_months (fecha e) n with
        | Ok d => Some d
        | Raise _ => None
        end
      else None
  | None => None
  end.

Definition next_due_sql (e : CalibrationEvent) : string :=
  match next_due e with
  | Some d => ("'" ++ isoformat d ++ "'")%string
  | None => "NULL"
  end.

Definition tipo_of (e : CalibrationEvent) : string :=
  match requerimiento e with
  | Some (String c r) => sql_escape (String c r)
  | _ => u8 "Calibración programada"
  end.

Definition observaciones_of (e : CalibrationEvent) : string :=
  let tail :=
    [ (periodo_label e ++ " " ++ str_of_Z (year e))%string;
      "Fuente: CERT_instrumentos_original_v2.csv" ] in
  sql_escape
    (join ". "
       (match requerimiento e with
        | Some (String c r) => ("Requerimiento: " ++ String c r)%string :: tail
        | _ => tail
        end)).

(** The statement that looks the instrument up by code and tenant. *)
Definition lookup_stmt (empresa_id : Z) (e : CalibrationEvent) : string :=
  ("SET @instrumento_id = (SELECT id FROM instrumentos WHERE codigo = '" ++
   sql_escape (codigo e) ++ "' AND empresa_id = " ++ str_of_Z empresa_id ++
   " LIMIT 1);")%string.

(** The values the insert projects. *)
Definition projection (empresa_id : Z) (e : CalibrationEvent) : string :=
  (str_of_Z empresa_id ++ ", '" ++ tipo_of e ++ "', '" ++
   isoformat (fecha e) ++ "', '" ++ periodo e ++ "', " ++ next_due_sql e ++
   ", NULL, '" ++ observaciones_of e ++ "'")%string.

(** The guard of the insert: the instrument exists and no row with the
    same instrument, tenant, date and period does. *)
Definition guard (empresa_id : Z) (e : CalibrationEvent) : string :=
  (" FROM DUAL WHERE @instrumento_id IS NOT NULL AND NOT EXISTS (" ++
   "SELECT 1 FROM calibraciones WHERE instrumento_id = @instrumento_id " ++
   "AND empresa_id = " ++ str_of_Z empresa_id ++
   " AND fecha_calibracion = '" ++ isoformat (fecha e) ++
   "' AND periodo = '" ++ periodo e ++ "');")%string.

(** The four lines [build_sql] emits for one event. *)
Definition statements (empresa_id : Z) (e : CalibrationEvent) : list string :=
  [ lookup_stmt empresa_id e;
    insert_line;
    ("SELECT @instrumento_id, " ++ projection empresa_id e ++
     guard empresa_id e)%string;
    EmptyString ].

(** A row with a cell that is not blank once trimmed, as
    [_next_relevant_row] looks for it. *)
Definition nonblank (r : row) : bool :=
  existsb (fun cell => truthy (Some (strip cell))) r.

(** The report [main] prints after writing the script. *)
Definition report (n : nat) (output : string) : string :=
  ("Se generaron " ++ str_of_Z (Z.of_nat n) ++ " eventos en " ++ output ++
   ". " ++
   u8 "Ejecuta este archivo en phpMyAdmin después de validar los datos.")%string.

(** Number of positions of [s] at which [pat] occurs. *)
Fixpoint count_occurrences (pat s : string) : nat :=
  match s with
  | String _ r =>
      ((if String.prefix pat s then 1 else 0) + count_occurrences pat r)%nat
  | EmptyString => if String.prefix pat s then 1%nat else 0%nat
  end.

End Spec.

(** ** Orders

    A comparison function that is a total order: the interface the key of
    the sort is shown to satisfy, from its components up. *)

Class Order {A : Type} (cmp : A -> A -> comparison) : Prop := {
  cmp_refl : forall a, cmp a a = Eq;
  cmp_eq : forall a b, cmp a b = Eq -> a = b;
  cmp_antisym : forall a b, cmp b a = CompOpp (cmp a b);
  cmp_trans : forall a b c, cmp a b = Lt -> cmp b c = Lt -> cmp a c = Lt
}.

(** The lexicographic combination of two orders. *)
Definition lex {A B : Type} (cmpA : A -> A -> comparison)
    (cmpB : B -> B -> comparison) (x y : A * B) : comparison :=
  match cmpA (fst x) (fst y) with
  | Eq => cmpB (snd x) (snd y)
  | c => c
  end.

(** [a] is not after [b] in the order of the sort key. *)
Definition key_rel (a b : Cert.CalibrationEvent) : Prop :=
  Cert.key_le a b = true.

(** ** Sample sheets *)

Module Sample.

Import Cert.

Definition blanks (n : nat) : row := repeat EmptyString n.

(** Header rows with the period columns at indices 9 and 10. *)
Definition year_row : row := blanks 9 ++ ["2024"; "2024"].
Definition header_row : row := blanks 9 ++ ["PERIODO 1"; "PERIODO 2"].

(** A data row in the fixed layout: code in column 4, requirement in
    column 7, frequency in column 8, period cells from column 9 on. *)
Definition data_row (cod req freq : string) (cells : list string) : row :=
  blanks 4 ++ [cod; ""; ""; req; freq] ++ cells.

(** A file system holding the sheets [a.csv] and [b.csv]. *)
Definition two_files (a b : list row) : csv_files :=
  fun path =>
    if String.eqb path "a.csv" then Some a
    else if String.eqb path "b.csv" then Some b
    else None.

End Sample.

(** ** The modern generator: date projection and certificate numbers

    The two pure methods of [CertCalibrationGenerator].  The helper package
    [sbl_utils] is not part of the sources, so the branch the script takes
    when the import fails ([UTILS_AVAILABLE = False]) is the one embedded.
    The clock is an input: the current year and the [%m%d%H%M] stamp. *)

Module Modern.

Import Text Num Calendar.

(** [str.lower] on Latin-1: [A-Z] and the upper-case letters U+00C0..U+00DE
    (the multiplication sign U+00D7 apart) move up by 32. *)
Definition lower_char (c : ascii) : ascii :=
  if in_range 65 90 c || (in_range 192 222 c && negb (code c =? 215))
  then ascii_of_N (Z.to_N (code c + 32))
  else c.

Fixpoint lower (s : string) : string :=
  match s with
  | String c r => String (lower_char c) (lower r)
  | EmptyString => EmptyString
  end.

(** [pat in s] for strings: [pat] occurs somewhere in [s]. *)
Fixpoint contains (pat s : string) : bool :=
  String.prefix pat s ||
  match s with
  | String _ r => contains pat r
  | EmptyString => false
  end.

(** [calibration_frequencies], in insertion order. *)
Definition calibration_frequencies : list (string * Z) :=
  [ ("balanza", 12); ("balanza_analitica", 6); ("pipeta", 12);
    ("micropipeta", 6); ("termometro", 12); ("termometro_digital", 6);
    ("ph_metro", 6); ("medidor_ph", 6); ("conductimetro", 12);
    ("espectrofotometro", 6); ("autoclave", 6); ("incubadora", 12);
    ("refrigerador", 6); ("congelador", 6); ("centrifuga", 12);
    ("agitador", 12); ("cronometro", 24); ("default", 12) ].

(** [d.get(key)] on a dictionary with text keys. *)
Fixpoint get {V : Type} (d : list (string * V)) (key : string) : option V :=
  match d with
  | (k, v) :: rest => if String.eqb k key then Some v else get rest key
  | [] => None
  end.

(** The loop over [calibration_frequencies.items()]: the months of the
    first pattern that occurs in the type, or the value held before. *)
Fixpoint first_pattern (items : list (string * Z)) (normalized_type : string)
    (frequency_months : option Z) : option Z :=
  match items with
  | [] => frequency_months
  | (instrument_pattern, months) :: rest =>
      if contains instrument_pattern normalized_type then Some months
      else first_pattern rest normalized_type frequency_months
  end.

(** The frequency [calculate_next_calibration_date] settles on. *)
Definition frequency_for (instrument_type : string) : option Z :=
  let normalized_type := strip (lower instrument_type) in
  first_pattern calibration_frequencies normalized_type
    (get calibration_frequencies "default").

(** *** Ordinals of [datetime.date] *)

Definition DAYS_BEFORE_MONTH (m : Z) : Z :=
  nth (Z.to_nat m) [-1; 0; 31; 59; 90; 120; 151; 181; 212; 243; 273; 304; 334] 0.

Definition DAYS_IN_MONTH (m : Z) : Z :=
  nth (Z.to_nat m) [-1; 31; 28; 31; 30; 31; 30; 31; 31; 30; 31; 30; 31] 0.

Definition days_before_year (y : Z) : Z :=
  let y1 := y - 1 in
  y1 * 365 + y1 / 4 - y1 / 100 + y1 / 400.

Definition days_before_month (y m : Z) : Z :=
  DAYS_BEFORE_MONTH m + (if (2 <? m) && isleap y then 1 else 0).

(** [date.toordinal()] *)
Definition toordinal (d : date) : Z :=
  days_before_year (year d) + days_before_month (year d) (month d) + day d.

Definition MAXORDINAL : Z := 3652059.

(** [date.fromordinal(n)] for [1 <= n <= MAXORDINAL]: the 400-, 100-,
    4- and 1-year cycles are peeled off, then the month is estimated and
    corrected. *)
Definition fromordinal (n : Z) : date :=
  let n := n - 1 in
  let n400 := n / 146097 in
  let n := n mod 146097 in
  let y := n400 * 400 + 1 in
  let n100 := n / 36524 in
  let n := n mod 36524 in
  let n4 := n / 1461 in
  let n := n mod 1461 in
  let n1 := n / 365 in
  let n := n mod 365 in
  let y := y + n100 * 100 + n4 * 4 + n1 in
  if (n1 =? 4) || (n100 =? 4) then Date (y - 1) 12 31
  else
    let leapyear := (n1 =? 3) && (negb (n4 =? 24) || (n100 =? 3)) in
    let m := Z.shiftr (n + 50) 5 in
    let preceding :=
      DAYS_BEFORE_MONTH m + (if (2 <? m) && leapyear then 1 else 0) in
    if n <? preceding then
      let m := m - 1 in
      let preceding :=
        preceding -
        (DAYS_IN_MONTH m + (if (m =? 2) && leapyear then 1 else 0)) in
      Date y m (n - preceding + 1)
    else Date y m (n - preceding + 1).

(** [d + timedelta(days=n)] *)
Definition add_days (d : date) (n : Z) : result date :=
  let o := toordinal d + n in
  if (0 <? o) && (o <=? MAXORDINAL) then Ok (fromordinal o)
  else builtin_error OverflowError.

Definition calculate_next_calibration_date (last_calibration : date)
    (instrument_type : string) : result date :=
  match frequency_for instrument_type with
  | Some frequency_months =>
      try_except
        (date_new
           (year last_calibration +
            (month last_calibration + frequency_months - 1) / 12)
           ((month last_calibration + frequency_months - 1) mod 12 + 1)
           (day last_calibration))
        ValueError
        (add_days last_calibration (frequency_months * 30))
  | None => builtin_error ValueError   (* not reached: the table has "default" *)
  end.

(** *** Certificate numbers *)

(** The values a record holds: integers and text. *)
Inductive pyval : Type :=
| VInt (n : Z)
| VStr (s : string).

(** [format(v, "0<w>d")]: an integer is padded with zeros after its sign
    to width [w]; text does not take the format code [d]. *)
Definition format_0d (w : nat) (v : pyval) : result string :=
  match v with
  | VInt n =>
      Ok (if n <? 0 then ("-" ++ zfill (w - 1) (- n))%string else zfill w n)
  | VStr _ => builtin_error ValueError
  end.

Definition generate_certificate_number (self_empresa_id : Z)
    (today_year : Z) (timestamp : string)
    (instrument : list (string * pyval)) : result string :=
  let empresa_id :=
    match get instrument "empresa_id" with
    | Some v => v
    | None => VInt self_empresa_id
    end in
  cliente_id <- (match get instrument "cliente_id" with
                 | Some v => Ok v
                 | None => builtin_error KeyError
                 end) ;;
  e <- format_0d 2 empresa_id ;;
  c <- format_0d 3 cliente_id ;;
  Ok ("CERT-" ++ str_of_Z today_year ++ "-E" ++ e ++ "-C" ++ c ++ "-" ++
      timestamp)%string.

End Modern.

(** ** Shapes of texts and rows *)

Module Shape.

Import Text Cert.

(** The single quotes of [s] come in pairs: read from the left, a quote
    is directly followed by a second one, after which the reading goes
    on. *)
Fixpoint quotes_paired (s : string) : bool :=
  match s with
  | EmptyString => true
  | String c r =>
      if Ascii.eqb c "'" then
        match r with
        | String c' r' => Ascii.eqb c' "'" && quotes_paired r'
        | EmptyString => false
        end
      else quotes_paired r
  end.

(** A data row [iter_events] reads events from: at least nine cells and a
    code cell that is not a sentinel. *)
Definition usable_row (r : row) : bool :=
  (base_columns <=? List.length r)%nat && truthy (normalize_text (nth_error r 4)).

(** A cell that is empty once trimmed, and a row of such cells. *)
Definition blank_cell (c : string) : Prop := strip c = EmptyString.
Definition blank_row (r : row) : Prop := Forall blank_cell r.

End Shape.

(** ** Properties *)

Import Text Num Calendar Cert.

(** *** The exception monad *)


Lemma bind_inv_ok {A B : Type} (m : result A) (k : A -> result B) (b : B) :
  bind m k = Ok b -> exists a, m = Ok a /\ k a = Ok b.
Proof. destruct m as [a|e]; simpl; [eauto | discriminate]. Qed.


(** *** Text *)

Lemma lstrip_head (c : ascii) (s : string) :
  is_space c = false -> lstrip (String c s) = String c s.
Proof. intros H. simpl. now rewrite H. Qed.

Lemma rstrip_no_space (s : string) :
  all_chars (fun c => negb (is_space c)) s = true -> rstrip s = s.
Proof.
  induction s as [|c r IH]; simpl; [reflexivity|].
  intros H. apply andb_prop in H as [Hc Hr].
  rewrite (IH Hr). apply negb_true_iff in Hc. rewrite Hc.
  destruct r; reflexivity.
Qed.

Lemma strip_no_space (s : string) :
  all_chars (fun c => negb (is_space c)) s = true -> strip s = s.
Proof.
  intros H. unfold strip.
  assert (L : lstrip s = s).
  { destruct s as [|c r]; [reflexivity|]. simpl in H.
    apply andb_prop in H as [Hc _]. apply negb_true_iff in Hc.
    now apply lstrip_head. }
  rewrite L. now apply rstrip_no_space.
Qed.

Lemma all_chars_impl (p q : ascii -> bool) (s : string) :
  (forall c, p c = true -> q c = true) ->
  all_chars p s = true -> all_chars q s = true.
Proof.
  intros Hpq. induction s as [|c r IH]; simpl; [reflexivity|].
  intros H. apply andb_prop in H as [Hc Hr].
  rewrite (Hpq _ Hc), (IH Hr). reflexivity.
Qed.


Lemma digit_not_space (c : ascii) : is_digit c = true -> negb (is_space c) = true.
Proof.
  unfold is_digit, is_space, in_range. intros H.
  apply andb_prop in H as [H1 H2]. apply Z.leb_le in H1, H2.
  apply negb_true_iff.
  repeat (apply orb_false_iff; split);
    try (apply andb_false_iff);
    try (apply Z.eqb_neq; lia).
  - right. apply Z.leb_gt. lia.
  - right. apply Z.leb_gt. lia.
Qed.

(** *** Integers from digit strings *)

Lemma digitpart_digits (s : string) (acc n : Z) :
  all_chars is_digit s = true ->
  exists v, digitpart true acc n s = Some v.
Proof.
  revert acc n. induction s as [|c r IH]; intros acc n H; simpl.
  - eauto.
  - simpl in H. apply andb_prop in H as [Hc Hr]. rewrite Hc. now apply IH.
Qed.

Lemma lstrip_by_head (p : ascii -> bool) (c : ascii) (s : string) :
  p c = false -> lstrip_by p (String c s) = String c s.
Proof. intros H. simpl. now rewrite H. Qed.

Lemma rstrip_by_none (p : ascii -> bool) (s : string) :
  all_chars (fun c => negb (p c)) s = true -> rstrip_by p s = s.
Proof.
  induction s as [|c r IH]; simpl; [reflexivity|].
  intros H. apply andb_prop in H as [Hc Hr].
  rewrite (IH Hr). apply negb_true_iff in Hc. rewrite Hc.
  destruct r; reflexivity.
Qed.

Lemma strip_by_none (p : ascii -> bool) (s : string) :
  all_chars (fun c => negb (p c)) s = true -> strip_by p s = s.
Proof.
  intros H. unfold strip_by.
  assert (L : lstrip_by p s = s).
  { destruct s as [|c r]; [reflexivity|]. simpl in H.
    apply andb_prop in H as [Hc _]. apply negb_true_iff in Hc.
    now apply lstrip_by_head. }
  rewrite L. now apply rstrip_by_none.
Qed.

Lemma digit_not_space_num (c : ascii) :
  is_digit c = true -> negb (is_space_num c) = true.
Proof.
  unfold is_digit, is_space_num, in_range. intros H.
  apply andb_prop in H as [H1 H2]. apply Z.leb_le in H1, H2.
  apply negb_true_iff.
  repeat (apply orb_false_iff; split);
    try (apply andb_false_iff);
    try (apply Z.eqb_neq; lia).
  right. apply Z.leb_gt. lia.
Qed.

(** A string of digits is what [int] and [float] read of it. *)
Lemma strip_num_digits (s : string) :
  all_chars is_digit s = true -> strip_num s = s.
Proof.
  intros H. apply strip_by_none.
  eapply all_chars_impl; [apply digit_not_space_num | exact H].
Qed.

Lemma digit_val_bounds (c : ascii) : is_digit c = true -> 0 <= digit_val c <= 9.
Proof.
  unfold is_digit, in_range, digit_val. intros H.
  apply andb_prop in H as [H1 H2]. apply Z.leb_le in H1, H2. lia.
Qed.

(** The digits counted are those read, and the value read of [k] digits
    after [acc] lies in [acc * 10^k .. (acc + 1) * 10^k - 1]. *)
Lemma digitpart_count (s : string) (ad : bool) (acc n v k : Z) :
  all_chars is_digit s = true ->
  digitpart ad acc n s = Some (v, k) ->
  k = n + Z.of_nat (String.length s) /\
  acc * 10 ^ Z.of_nat (String.length s) <= v
    < (acc + 1) * 10 ^ Z.of_nat (String.length s).
Proof.
  revert ad acc n. induction s as [|c r IH]; intros ad acc n H E.
  - simpl in E. destruct ad; [|discriminate]. injection E as <- <-.
    simpl. lia.
  - simpl in H. apply andb_prop in H as [Hc Hr].
    cbn [digitpart] in E. rewrite Hc in E.
    destruct (IH _ _ _ Hr E) as [-> Hv].
    pose proof (digit_val_bounds c Hc) as Hb.
    cbn [String.length]. rewrite Nat2Z.inj_succ, Z.pow_succ_r by lia.
    assert (0 < 10 ^ Z.of_nat (String.length r)) by (apply Z.pow_pos_nonneg; lia).
    split; [lia | nia].
Qed.

Lemma split_sign_digit (c : ascii) (r : string) :
  is_digit c = true -> split_sign (String c r) = (false, String c r).
Proof.
  intros Hc. unfold split_sign.
  destruct c as [[] [] [] [] [] [] [] []]; try reflexivity; discriminate Hc.
Qed.

(** [int] of a string of digits, in full. *)
Lemma int_of_str_digits_eq (s : string) :
  s <> EmptyString -> all_chars is_digit s = true ->
  exists v,
    digitpart false 0 0 s = Some (v, Z.of_nat (String.length s)) /\
    0 <= v < 10 ^ Z.of_nat (String.length s) /\
    int_of_str s =
      if MAX_STR_DIGITS <? Z.of_nat (String.length s)
      then builtin_error ValueError else Ok v.
Proof.
  intros Hne H. unfold int_of_str. rewrite (strip_num_digits s H).
  destruct s as [|c r]; [congruence|].
  pose proof H as H0. simpl in H0. apply andb_prop in H0 as [Hc Hr].
  rewrite (split_sign_digit c r Hc).
  destruct (digitpart false 0 0 (String c r)) as [[v k]|] eqn:E.
  - destruct (digitpart_count _ _ _ _ _ _ H E) as [-> Hv].
    exists v. rewrite Z.add_0_l. repeat split; try lia. 
  - exfalso. cbn [digitpart] in E. rewrite Hc in E.
    destruct (digitpart_digits r (10 * 0 + digit_val c) (0 + 1) Hr) as [x Ex].
    congruence.
Qed.

Lemma int_of_str_digits (s : string) :
  s <> EmptyString -> all_chars is_digit s = true ->
  Z.of_nat (String.length s) <= MAX_STR_DIGITS ->
  exists v, int_of_str s = Ok v /\ 0 <= v < 10 ^ Z.of_nat (String.length s).
Proof.
  intros Hne H L.
  destruct (int_of_str_digits_eq s Hne H) as (v & _ & Hv & E).
  exists v. split; [|exact Hv]. rewrite E.
  destruct (Z.ltb_spec MAX_STR_DIGITS (Z.of_nat (String.length s))) as [Hlt|];
    [lia | reflexivity].
Qed.

(** *** Regular-expression matching *)

Lemma first_down_some {A : Type} (f : nat -> option A) (lo n : nat) (x : A) :
  Regex.first_down f lo n = Some x ->
  exists k, (lo <= k <= n)%nat /\ f k = Some x.
Proof.
  induction n as [|n IH]; simpl.
  - destruct (Nat.ltb_spec 0 lo); [discriminate|].
    destruct (f O) eqn:E; [|discriminate].
    intros [= <-]. exists O. split; [lia | exact E].
  - destruct (Nat.ltb_spec (S n) lo); [discriminate|].
    destruct (f (S n)) eqn:E.
    + intros [= <-]. exists (S n). split; [lia | exact E].
    + intros H1. destruct (Nat.ltb_spec n lo) as [Hlt|Hge].
      * destruct n; simpl in H1.
        -- destruct (Nat.ltb_spec 0 lo); [discriminate | lia].
        -- destruct (Nat.ltb_spec (S n) lo); [discriminate | lia].
      * destruct (IH H1) as (k & Hk & Hf). exists k. split; [lia | exact Hf].
Qed.

Lemma take_run (p : ascii -> bool) (cap : option nat) (s : string) (k : nat) :
  (k <= Regex.run p cap s)%nat ->
  all_chars p (Regex.take k s) = true /\ String.length (Regex.take k s) = k.
Proof.
  revert cap s. induction k as [|k IH]; intros cap s H.
  - destruct s; simpl; auto.
  - destruct s as [|c r]; simpl in H; [lia|].
    destruct (p c) eqn:Hc; [|lia].
    assert (exists cap', (k <= Regex.run p cap' r)%nat) as [cap' H'].
    { destruct cap as [[|j]|].
      - lia.
      - exists (Some j). lia.
      - exists None. lia. }
    destruct (IH _ _ H') as [Ha Hl]. simpl. rewrite Hc, Ha, Hl. auto.
Qed.

Lemma run_within (p : ascii -> bool) (cap : option nat) (s : string) :
  Regex.within cap (Regex.run p cap s).
Proof.
  revert cap. induction s as [|c r IH]; intros cap.
  - destruct cap; simpl; [lia | exact I].
  - simpl. destruct (p c).
    + destruct cap as [[|k]|]; simpl; [lia | | exact I].
      specialize (IH (Some k)). simpl in IH. lia.
    + destruct cap; simpl; [lia | exact I].
Qed.

Lemma match_here_groups (items : list Regex.item) (s : string)
    (gs : list string) :
  Regex.match_here items s = Some gs -> Regex.groups_ok items gs.
Proof.
  revert s gs. induction items as [|it rest IH]; intros s gs; simpl.
  - now intros [= <-].
  - intros H. apply first_down_some in H as (k & Hk & Hf).
    destruct (Regex.match_here rest (Regex.drop k s)) as [gs'|] eqn:E;
      [|discriminate].
    injection Hf as <-. specialize (IH _ _ E).
    destruct (Regex.group it); [|exact IH].
    destruct (take_run (Regex.cls it) (Regex.rep_max it) s k) as [Ha Hl]; [lia|].
    rewrite Hl. repeat split; [exact Ha | lia | | exact IH].
    pose proof (run_within (Regex.cls it) (Regex.rep_max it) s) as W.
    destruct (Regex.rep_max it); simpl in *; [lia | exact I].
Qed.

Lemma search_groups (items : list Regex.item) (s : string) (gs : list string) :
  Regex.search items s = Some gs -> Regex.groups_ok items gs.
Proof.
  induction s as [|c r IH]; simpl.
  - destruct (Regex.match_here items EmptyString) eqn:E; [|discriminate].
    intros [= <-]. eapply match_here_groups; eauto.
  - destruct (Regex.match_here items (String c r)) eqn:E.
    + intros [= <-]. eapply match_here_groups; eauto.
    + exact IH.
Qed.

Lemma nonempty_length (s : string) : (1 <= String.length s)%nat -> s <> EmptyString.
Proof. destruct s; simpl; [lia | discriminate]. Qed.

(** The three groups of a [DATE_REGEX] match: one or two digits, month
    characters, two to four digits. *)
Lemma date_regex_groups (value : string) (gs : list string) :
  Regex.search DATE_REGEX value = Some gs ->
  exists d m y, gs = [d; m; y] /\
    (d <> EmptyString /\ (String.length d <= 2)%nat) /\
    all_chars is_digit d = true /\
    all_chars is_month_char m = true /\
    (y <> EmptyString /\ (String.length y <= 4)%nat) /\
    all_chars is_digit y = true.
Proof.
  intros H. apply search_groups in H. simpl in H.
  destruct gs as [|d [|m [|y gs]]]; try tauto;
    try (destruct H as (_ & _ & H); tauto);
    try (destruct H as (_ & _ & _ & _ & H); tauto).
  destruct H as (Hd & [Ld Wd] & Hm & Lm & Hy & [Ly Wy] & ->).
  exists d, m, y. repeat split; auto; apply nonempty_length; lia.
Qed.

(** What [int] reads of a group of at most four digits. *)
Lemma int_of_str_group (s : string) (k : nat) :
  s <> EmptyString -> (String.length s <= k)%nat -> (k <= 4)%nat ->
  all_chars is_digit s = true ->
  exists v, int_of_str s = Ok v /\ 0 <= v < 10 ^ Z.of_nat k.
Proof.
  intros Hne L K H.
  destruct (int_of_str_digits s Hne H) as (v & E & Hv).
  { unfold MAX_STR_DIGITS. lia. }
  exists v. split; [exact E|]. split; [lia|].
  eapply Z.lt_le_trans; [apply Hv|].
  apply Z.pow_le_mono_r; lia.
Qed.

(** *** Dates *)


Lemma valid_ymd_iff (y m d : Z) :
  valid_ymd y m d = true <->
  MINYEAR <= y <= MAXYEAR /\ 1 <= m <= 12 /\ 1 <= d <= month_length y m.
Proof.
  unfold valid_ymd. rewrite !andb_true_iff, !Z.leb_le. tauto.
Qed.

Lemma month_length_bounds (y m : Z) : 28 <= month_length y m <= 31.
Proof.
  unfold month_length, mdays.
  destruct (m =? 2) eqn:E2; simpl.
  - destruct (isleap y); lia.
  - destruct ((m =? 4) || (m =? 6) || (m =? 9) || (m =? 11)); lia.
Qed.

Lemma fits_int_iff (n : Z) : fits_int n = true <-> - 2147483648 <= n <= 2147483647.
Proof.
  unfold fits_int, INT_MIN, INT_MAX. rewrite andb_true_iff, !Z.leb_le.
  change (- 2 ^ 31) with (- 2147483648). change (2 ^ 31 - 1) with 2147483647.
  tauto.
Qed.

Lemma fits_int_small (n : Z) : - 2147483648 <= n <= 2147483647 -> fits_int n = true.
Proof. apply fits_int_iff. Qed.

(** The three outcomes of [dt.date(y, m, d)]. *)
Lemma date_new_cases (y m d : Z) :
  date_new y m d = Ok (Date y m d) /\ valid_ymd y m d = true \/
  date_new y m d = builtin_error ValueError /\ valid_ymd y m d = false /\
    fits_int y && fits_int m && fits_int d = true \/
  date_new y m d = builtin_error OverflowError /\
    fits_int y && fits_int m && fits_int d = false.
Proof.
  unfold date_new. destruct (fits_int y && fits_int m && fits_int d); [|auto].
  destruct (valid_ymd y m d); auto.
Qed.

Lemma date_new_valid (y m d : Z) :
  valid_ymd y m d = true -> date_new y m d = Ok (Date y m d).
Proof.
  intros V. unfold date_new. rewrite V.
  apply valid_ymd_iff in V as (Hy & Hm & Hd).
  pose proof (month_length_bounds y m). unfold MINYEAR, MAXYEAR in Hy.
  rewrite !fits_int_small by lia. reflexivity.
Qed.

(** Arguments within the range of a C [int] give a date or a
    [ValueError]. *)
Lemma date_new_fits (y m d : Z) :
  - 2147483648 <= y <= 2147483647 ->
  - 2147483648 <= m <= 2147483647 ->
  - 2147483648 <= d <= 2147483647 ->
  date_new y m d =
    if valid_ymd y m d then Ok (Date y m d) else builtin_error ValueError.
Proof.
  intros Hy Hm Hd. unfold date_new. now rewrite !fits_int_small.
Qed.

(** Every month number of [SPANISH_MONTHS] is a month of the year. *)
Lemma spanish_month_range (key : list Z) (mo : Z) :
  dict_get SPANISH_MONTHS key = Some mo -> 1 <= mo <= 12.
Proof.
  unfold SPANISH_MONTHS. cbn [dict_get].
  repeat (destruct (codes_eqb _ key); [intros [= <-]; lia|]).
  discriminate.
Qed.

Lemma pivot_range (v : Z) : 0 <= v < 10 ^ 4 -> 100 <= Spec.pivot v <= 9999.
Proof.
  change (10 ^ 4) with 10000. unfold Spec.pivot. intros H.
  destruct (Z.ltb_spec v 100); [|lia].
  destruct (Z.leb_spec v 79); lia.
Qed.

(** [extract_date] never raises, and a date it returns passes the calendar
    checks of [datetime.date]. *)
Lemma extract_date_ok (value : string) :
  exists r, extract_date value = Ok r /\
    match r with
    | Some d => valid_date d = true
    | None => True
    end.
Proof.
  unfold extract_date.
  destruct (negb (truthy (Some value))); [exists None; auto|].
  destruct (Regex.search DATE_REGEX value) as [gs|] eqn:E; [|exists None; auto].
  destruct (date_regex_groups _ _ E)
    as (d & m & y & -> & [Hd Ld] & Dd & _ & [Hy Ly] & Dy).
  destruct (int_of_str_group d 2 Hd Ld ltac:(lia) Dd) as (dv & -> & Bd).
  destruct (int_of_str_group y 4 Hy Ly ltac:(lia) Dy) as (yv & Ey & By).
  cbn [bind].
  match goal with |- context [dict_get SPANISH_MONTHS ?k] =>
    destruct (dict_get SPANISH_MONTHS k) as [mo|] eqn:Em end;
    [|exists None; auto].
  apply spanish_month_range in Em.
  destruct (mo =? 0); [exists None; auto|].
  rewrite Ey. cbn [bind]. fold (Spec.pivot yv).
  pose proof (pivot_range yv By) as Hp.
  change (10 ^ Z.of_nat 2) with 100 in Bd.
  rewrite date_new_fits by lia.
  destruct (valid_ymd (Spec.pivot yv) mo dv) eqn:V.
  - eexists. split; [reflexivity|]. exact V.
  - exists None. split; reflexivity.
Qed.

(** *** Month arithmetic *)

(** What [add_months] computes, for any base date and any number of
    months: the destination month and year are those of the month count
    [12 * year + (month - 1) + months], and the day is clamped. *)
Lemma add_months_eq (d : date) (months : Z) :
  let idx := Calendar.month d - 1 + months in
  let y := Calendar.year d + idx / 12 in
  let m := idx mod 12 + 1 in
  add_months d months = date_new y m (Z.min (Calendar.day d) (month_length y m)).
Proof.
  intros idx y m. unfold add_months, _days_in_month, monthrange_days.
  fold idx. fold y. fold m.
  assert (Hm : 1 <= m <= 12) by (unfold m; pose proof (Z.mod_pos_bound idx 12); lia).
  destruct (Z.leb_spec 1 m); [|lia]. destruct (Z.leb_spec m 12); [|lia].
  reflexivity.
Qed.

(** The three ways [add_months] ends on a valid date: the clamped date
    when the destination year is one of [datetime.date], an
    [OverflowError] when it does not fit a C [int], a [ValueError]
    between the two. *)
Lemma add_months_outcome (d : date) (months : Z) :
  valid_date d = true ->
  let idx := Calendar.month d - 1 + months in
  let y := Calendar.year d + idx / 12 in
  let m := idx mod 12 + 1 in
  let dd := Z.min (Calendar.day d) (month_length y m) in
  1 <= m <= 12 /\
  add_months d months =
    (if (MINYEAR <=? y) && (y <=? MAXYEAR) then Ok (Date y m dd)
     else if fits_int y then builtin_error ValueError
     else builtin_error OverflowError) /\
  ((MINYEAR <=? y) && (y <=? MAXYEAR) = true -> valid_ymd y m dd = true).
Proof.
  intros V idx y m dd. apply valid_ymd_iff in V as (Hy & Hmo & Hd).
  pose proof (Z.mod_pos_bound idx 12 ltac:(lia)) as Hr.
  assert (Hm : 1 <= m <= 12) by (unfold m; lia).
  pose proof (month_length_bounds y m) as Hl.
  assert (Hdd : 1 <= dd <= month_length y m) by (unfold dd; lia).
  assert (Hv : (MINYEAR <=? y) && (y <=? MAXYEAR) = true -> valid_ymd y m dd = true).
  { intros H. apply andb_prop in H as [H1 H2]. apply Z.leb_le in H1, H2.
    apply valid_ymd_iff. lia. }
  split; [exact Hm|]. split; [|exact Hv].
  rewrite add_months_eq. fold idx. fold y. fold m. fold dd.
  clearbody y m dd.
  destruct ((MINYEAR <=? y) && (y <=? MAXYEAR)) eqn:Ey.
  - apply date_new_valid. now apply Hv.
  - unfold date_new.
    rewrite (fits_int_small m), (fits_int_small dd), !andb_true_r by lia.
    destruct (fits_int y); [|reflexivity].
    destruct (valid_ymd y m dd) eqn:V; [|reflexivity].
    apply valid_ymd_iff in V as (Hy' & _).
    apply andb_false_iff in Ey as [Ey|Ey]; apply Z.leb_gt in Ey; lia.
Qed.

(** C4, corrected.  For a valid date and [months >= 0], [add_months]
    lands in the month that lies [months] whole months later and keeps the
    day, clamped to the length of that month; this is the returned date as
    long as the destination year is at most 9999, the largest year of
    [datetime.date].  Beyond, the call raises: a [ValueError] while the
    year fits a C [int], an [OverflowError] past that. *)
Theorem add_months_exact (d : date) (months : Z) :
  valid_date d = true -> 0 <= months ->
  exists y m,
    1 <= m <= 12 /\
    12 * y + m = 12 * Calendar.year d + Calendar.month d + months /\
    if y <=? MAXYEAR then
      add_months d months
        = Ok (Date y m (Z.min (Calendar.day d) (month_length y m))) /\
      valid_ymd y m (Z.min (Calendar.day d) (month_length y m)) = true
    else if y <=? INT_MAX then
      add_months d months = builtin_error ValueError
    else add_months d months = builtin_error OverflowError.
Proof.
  intros V Hm.
  destruct (add_months_outcome d months V) as (Hm12 & E & Hv).
  apply valid_ymd_iff in V as (Hy & Hmo & Hd).
  set (idx := Calendar.month d - 1 + months) in *.
  exists (Calendar.year d + idx / 12), (idx mod 12 + 1).
  pose proof (Z.mod_pos_bound idx 12 ltac:(lia)) as Hr.
  pose proof (Z.div_mod idx 12 ltac:(lia)) as Hq.
  assert (0 <= idx / 12) by (apply Z.div_pos; unfold idx; lia).
  split; [lia|]. split; [unfold idx in *; lia|].
  set (y := Calendar.year d + idx / 12) in *. set (m := idx mod 12 + 1) in *.
  assert (Hy1 : MINYEAR <= y) by (unfold y; lia).
  apply Z.leb_le in Hy1. rewrite Hy1 in E, Hv. cbn [andb] in E, Hv.
  clearbody y m.
  destruct (y <=? MAXYEAR) eqn:Ey; [split; [exact E | now apply Hv]|].
  rewrite E. unfold fits_int.
  apply Z.leb_le in Hy1. unfold MINYEAR in Hy1.
  assert (Hlo : (INT_MIN <=? y) = true)
    by (apply Z.leb_le; unfold INT_MIN; change (- 2 ^ 31) with (- 2147483648); lia).
  rewrite Hlo. cbn [andb]. destruct (y <=? INT_MAX); reflexivity.
Qed.

Lemma add_months_exact_witness :
  valid_date (Date 2024 1 31) = true /\ 0 <= 1 /\
  add_months (Date 2024 1 31) 1 = Ok (Date 2024 2 29) /\
  valid_date (Date 2023 1 31) = true /\
  add_months (Date 2023 1 31) 1 = Ok (Date 2023 2 28).
Proof.
  split; [reflexivity|]. split; [lia|]. split; [|split; [reflexivity|]].
  - destruct (add_months_exact (Date 2024 1 31) 1 eq_refl ltac:(lia))
      as (y & m & Hm & He & H).
    cbn [Calendar.year Calendar.month] in He. assert (y = 2024) by lia. assert (m = 2) by lia. subst.
    exact (proj1 H).
  - destruct (add_months_exact (Date 2023 1 31) 1 eq_refl ltac:(lia))
      as (y & m & Hm & He & H).
    cbn [Calendar.year Calendar.month] in He. assert (y = 2023) by lia. assert (m = 2) by lia. subst.
    exact (proj1 H).
Defined.

(** C4, counterexample.  The last day of year 9999 is a valid date, yet
    adding one month to it raises instead of returning a date. *)
Lemma add_months_past_maxyear :
  valid_date (Date 9999 12 31) = true /\ 0 <= 1 /\
  add_months (Date 9999 12 31) 1 = Raise (Exn ValueError None).
Proof. split; [reflexivity|]. split; [lia | reflexivity]. Qed.

(** *** Trimming and the sentinel values *)

Lemma rstrip_idem (s : string) : rstrip (rstrip s) = rstrip s.
Proof.
  induction s as [|c r IH]; [reflexivity|].
  simpl. destruct (rstrip r) as [|a r'] eqn:E.
  - destruct (is_space c) eqn:Hc; [reflexivity|]. simpl. now rewrite Hc.
  - remember (String a r') as t eqn:Et. simpl. rewrite IH. now subst t.
Qed.

Lemma lstrip_clean (s : string) :
  match lstrip s with
  | String c _ => is_space c = false
  | EmptyString => True
  end.
Proof.
  induction s as [|c r IH]; simpl; [exact I|].
  destruct (is_space c) eqn:Hc; [exact IH | exact Hc].
Qed.

Lemma strip_idem (s : string) : strip (strip s) = strip s.
Proof.
  unfold strip. pose proof (lstrip_clean s) as H.
  destruct (lstrip s) as [|c r]; [reflexivity|].
  assert (E : exists r', rstrip (String c r) = String c r').
  { simpl. destruct (rstrip r); [rewrite H|]; eauto. }
  destruct E as [r' E]. rewrite E.
  rewrite lstrip_head by exact H. rewrite <- E. apply rstrip_idem.
Qed.

Lemma mem_NA_cases (v : string) :
  mem v NA_VALUES = true ->
  v = "" \/ v = "NA" \/ v = "ND" \/ v = "N/A" \/ v = "null" \/ v = "NULL".
Proof.
  unfold mem, NA_VALUES. simpl. intros H.
  repeat (apply orb_prop in H as [H|H]; [apply String.eqb_eq in H; auto 10|]).
  discriminate H.
Qed.

(** No sentinel value reads as an integer. *)
Lemma int_of_str_not_NA (s : string) (y : Z) :
  int_of_str s = Ok y -> mem s NA_VALUES = false.
Proof.
  intros H. destruct (mem s NA_VALUES) eqn:E; [|reflexivity].
  apply mem_NA_cases in E as [E|[E|[E|[E|[E|E]]]]]; rewrite E in H;
    discriminate H.
Qed.

Lemma int_of_str_raise (s : string) (e : exn) :
  int_of_str s = Raise e -> e = Exn ValueError None.
Proof.
  unfold int_of_str. destruct (split_sign (strip_num s)) as [neg body].
  destruct (digitpart false 0 0 body) as [[v k]|]; [|now intros [= <-]].
  destruct (MAX_STR_DIGITS <? k); [now intros [= <-] | discriminate].
Qed.

Lemma normalize_text_some (c v : string) :
  normalize_text (Some c) = Some v <->
  v = strip c /\ mem (strip c) NA_VALUES = false.
Proof.
  unfold normalize_text. destruct (mem (strip c) NA_VALUES); split.
  - discriminate.
  - intros [_ H]. discriminate.
  - intros [= <-]. auto.
  - intros [-> _]. reflexivity.
Qed.

Lemma normalize_text_truthy (c v : string) :
  normalize_text (Some c) = Some v -> truthy (Some v) = true.
Proof.
  intros H. apply normalize_text_some in H as [-> H].
  destruct (strip c); [discriminate H | reflexivity].
Qed.

(** *** The period-column resolver *)

Lemma period_map_get (k : list Z) (key : string) :
  dict_get PERIOD_MAP k = Some key <->
  (k = codes "PERIODO 1" /\ key = "P1") \/
  (k = codes "PERIODO 2" /\ key = "P2") \/
  (k = codes "EXTRAORDINARIO" /\ key = "EXTRA").
Proof.
  unfold PERIOD_MAP, dict_get, codes_eqb.
  repeat match goal with
         | |- context [list_eq_dec Z.eq_dec ?a k] =>
             destruct (list_eq_dec Z.eq_dec a k) as [<- | ?]
         end.
  - split; [intros [= <-]; auto|].
    intros [[_ ->]|[[E _]|[E _]]]; [reflexivity | discriminate E ..].
  - split; [intros [= <-]; auto|].
    intros [[E _]|[[_ ->]|[E _]]]; [discriminate E | reflexivity | discriminate E].
  - split; [intros [= <-]; auto|].
    intros [[E _]|[[E _]|[_ ->]]]; [discriminate E .. | reflexivity].
  - split; [discriminate|].
    intros [[E _]|[[E _]|[E _]]]; congruence.
Qed.

Lemma period_key_truthy (k : list Z) (key : string) :
  dict_get PERIOD_MAP k = Some key -> truthy (Some key) = true.
Proof.
  intros H. apply period_map_get in H as [[_ ->]|[[_ ->]|[_ ->]]]; reflexivity.
Qed.

(** One step of the header loop is [Spec.column_of] and never raises. *)
Lemma resolve_column_eq (year_row : row) (idx : nat) (label : string) :
  resolve_column year_row idx label = Ok (Spec.column_of year_row idx label).
Proof.
  unfold resolve_column, Spec.column_of.
  destruct (idx <? base_columns)%nat; [reflexivity|].
  destruct (Nat.ltb_spec idx (List.length year_row)) as [Hlt|Hge].
  2:{ rewrite (proj2 (nth_error_None year_row idx) Hge). reflexivity. }
  destruct (nth_error year_row idx) as [yc|] eqn:Ey.
  2:{ apply nth_error_None in Ey. lia. }
  destruct (normalize_text (Some yc)) as [yv|] eqn:Ny.
  - pose proof (normalize_text_truthy _ _ Ny) as Ty.
    apply normalize_text_some in Ny as [-> Ny].
    destruct (normalize_text (Some label)) as [pl|] eqn:Nl.
    + pose proof (normalize_text_truthy _ _ Nl) as Tl.
      apply normalize_text_some in Nl as [-> Nl].
      rewrite Ty, Tl. cbn [negb orb].
      destruct (dict_get PERIOD_MAP (upper (strip label))) as [key|] eqn:Ek.
      * rewrite (period_key_truthy _ _ Ek). cbn [negb].
        destruct (int_of_str (strip yc)) as [y|e] eqn:Ei; [reflexivity|].
        rewrite (int_of_str_raise _ _ Ei). reflexivity.
      * destruct (int_of_str (strip yc)); reflexivity.
    + assert (Hk : dict_get PERIOD_MAP (upper (strip label)) = None).
      { unfold normalize_text in Nl.
        destruct (mem (strip label) NA_VALUES) eqn:E; [|discriminate].
        apply mem_NA_cases in E as [E|[E|[E|[E|[E|E]]]]]; rewrite E;
          reflexivity. }
      rewrite Hk. destruct (int_of_str (strip yc)); reflexivity.
  - destruct (int_of_str (strip yc)) as [y|e] eqn:Ei; [|reflexivity].
    apply int_of_str_not_NA in Ei. unfold normalize_text in Ny.
    rewrite Ei in Ny. discriminate.
Qed.

Lemma resolve_columns_eq (year_row header_row : row) (idx : nat)
    (acc : list period_column) :
  resolve_columns year_row idx header_row acc
  = Ok (acc ++ Spec.columns_from year_row idx header_row).
Proof.
  revert idx acc. induction header_row as [|label rest IH]; intros idx acc.
  - simpl. now rewrite app_nil_r.
  - simpl. rewrite resolve_column_eq. cbn [bind]. rewrite IH.
    destruct (Spec.column_of year_row idx label); simpl.
    + now rewrite <- app_assoc.
    + reflexivity.
Qed.

Lemma in_columns_from (year_row header_row : row) (idx : nat)
    (pc : period_column) :
  In pc (Spec.columns_from year_row idx header_row) <->
  exists j label, nth_error header_row j = Some label /\
                  Spec.column_of year_row (idx + j) label = Some pc.
Proof.
  revert idx. induction header_row as [|l rest IH]; intros idx; simpl.
  - split; [tauto|]. intros (j & label & H & _). destruct j; discriminate.
  - rewrite in_app_iff, IH. split.
    + intros [H|(j & label & Hn & Hc)].
      * exists O, l. rewrite Nat.add_0_r. split; [reflexivity|].
        destruct (Spec.column_of year_row idx l); simpl in H; [|tauto].
        destruct H as [->|[]]. reflexivity.
      * exists (S j), label. rewrite Nat.add_succ_r. auto.
    + intros (j & label & Hn & Hc). destruct j as [|j].
      * left. rewrite Nat.add_0_r in Hc. injection Hn as ->.
        rewrite Hc. now left.
      * right. exists j, label. rewrite Nat.add_succ_r in Hc. auto.
Qed.

Lemma column_of_some (year_row : row) (j : nat) (label : string)
    (idx : nat) (key lbl : string) (y : Z) :
  Spec.column_of year_row j label = Some (idx, key, lbl, y) <->
  idx = j /\ (base_columns <= idx)%nat /\ lbl = strip label /\
  dict_get PERIOD_MAP (upper (strip label)) = Some key /\
  exists yc, nth_error year_row idx = Some yc /\ int_of_str (strip yc) = Ok y.
Proof.
  unfold Spec.column_of. destruct (Nat.ltb_spec j base_columns) as [Hlt|Hge].
  - split; [discriminate|]. intros (-> & H & _). lia.
  - destruct (nth_error year_row j) as [yc|] eqn:Ey.
    + destruct (int_of_str (strip yc)) as [v|e] eqn:Ei.
      * destruct (dict_get PERIOD_MAP (upper (strip label))) as [k|] eqn:Ek.
        -- split.
           ++ intros [= <- <- <- <-]. rewrite Ey. eauto 10.
           ++ intros (-> & _ & -> & [= ->] & yc' & E1 & E2).
              rewrite Ey in E1. injection E1 as <-. congruence.
        -- split; [discriminate|]. intros (_ & _ & _ & H & _). discriminate.
      * split; [discriminate|].
        intros (-> & _ & _ & _ & yc' & E1 & E2).
        rewrite Ey in E1. injection E1 as <-. congruence.
    + split; [discriminate|].
      intros (-> & _ & _ & _ & yc' & E1 & _). congruence.
Qed.

(** C5, corrected.  The resolver never raises, and a column is in the
    resolved mapping exactly when its index is past the fixed prefix, its
    year cell is present and, trimmed of surrounding whitespace, reads as
    an integer, and its label cell, trimmed of surrounding whitespace and
    upper-cased, is one of the three period names; the entry carries the
    period code of that name, the trimmed label and the integer read. *)
Theorem period_columns_resolved (year_row header_row : row) :
  exists pcs,
    resolve_columns year_row 0 header_row [] = Ok pcs /\
    forall (idx : nat) (key lbl : string) (y : Z),
      In (idx, key, lbl, y) pcs <->
      (base_columns <= idx)%nat /\
      exists yc label,
        nth_error year_row idx = Some yc /\ int_of_str (strip yc) = Ok y /\
        nth_error header_row idx = Some label /\ lbl = strip label /\
        ((upper (strip label) = codes "PERIODO 1" /\ key = "P1") \/
         (upper (strip label) = codes "PERIODO 2" /\ key = "P2") \/
         (upper (strip label) = codes "EXTRAORDINARIO" /\ key = "EXTRA")).
Proof.
  exists (Spec.columns_from year_row 0 header_row).
  split; [apply (resolve_columns_eq year_row header_row 0 [])|].
  intros idx key lbl y. rewrite in_columns_from. split.
  - intros (j & label & Hn & Hc). simpl in Hc.
    apply column_of_some in Hc as (-> & Hb & -> & Hk & yc & Ey & Ei).
    split; [exact Hb|]. exists yc, label.
    apply period_map_get in Hk. auto 10.
  - intros (Hb & yc & label & Ey & Ei & Hn & -> & Hk).
    exists idx, label. split; [exact Hn|]. simpl.
    apply column_of_some. apply period_map_get in Hk. eauto 10.
Qed.

(** C5, counterexample.  A label cell with a leading blank is not, once
    upper-cased, one of the period names, yet its column is resolved: the
    code trims the label before it compares. *)
Lemma padded_label_is_resolved :
  let blanks := repeat EmptyString 9 in
  dict_get PERIOD_MAP (upper " PERIODO 1") = None /\
  resolve_columns (blanks ++ ["2024"]) 0 (blanks ++ [" PERIODO 1"]) []
  = Ok [(9%nat, "P1", "PERIODO 1", 2024)].
Proof. split; reflexivity. Qed.

(** *** The event builder *)

Lemma index_nth {A : Type} (l : list A) (i : nat) :
  (i < List.length l)%nat ->
  exists x, nth_error l i = Some x /\ index l i = Ok x.
Proof.
  intros H. unfold index. destruct (nth_error l i) as [x|] eqn:E; [eauto|].
  apply nth_error_None in E. lia.
Qed.

Lemma cell_event_eq (r : row) (cod : string) (req : option string)
    (freq : option Z) (pc : period_column) :
  cell_event r cod req freq pc = Ok (Spec.cell_of r cod req freq pc).
Proof.
  destruct pc as [[[idx per] lbl] y]. unfold cell_event, Spec.cell_of.
  destruct (Nat.leb_spec (List.length r) idx) as [Hge|Hlt].
  - now rewrite (proj2 (nth_error_None r idx) Hge).
  - destruct (index_nth r idx Hlt) as (cell & -> & ->). cbn [bind].
    destruct (normalize_text (Some cell)) as [celda|] eqn:N; [|reflexivity].
    rewrite (normalize_text_truthy _ _ N). cbn [negb].
    destruct (extract_date_ok celda) as (f & -> & _). cbn [bind].
    destruct f; reflexivity.
Qed.

Lemma cells_events_eq (r : row) (cod : string) (req : option string)
    (freq : option Z) (pcs : list period_column)
    (events : list CalibrationEvent) :
  cells_events r cod req freq pcs events
  = Ok (events ++
        flat_map (fun pc => Spec.opt_list (Spec.cell_of r cod req freq pc)) pcs).
Proof.
  revert events. induction pcs as [|pc rest IH]; intros events; simpl.
  - now rewrite app_nil_r.
  - rewrite cell_event_eq. cbn [bind]. rewrite IH.
    destruct (Spec.cell_of r cod req freq pc); simpl.
    + now rewrite <- app_assoc.
    + reflexivity.
Qed.

Lemma float_of_str_raise (s : string) (e : exn) :
  float_of_str s = Raise e -> e = Exn ValueError None.
Proof.
  unfold float_of_str. destruct (split_sign (strip_num s)) as [neg body].
  destruct (_ || _); [discriminate|].
  destruct (String.eqb _ _); [discriminate|].
  destruct (floatnumber body) as [[d k]|]; [discriminate|].
  now intros [= <-].
Qed.

(** The frequency parser either answers or raises [OverflowError], and
    the latter exactly on a cell that reads as an infinity. *)
Lemma parse_frecuencia_cases (raw : option string) :
  (exists f, parse_frecuencia raw = Ok f) \/
  (parse_frecuencia raw = builtin_error OverflowError /\
   exists s neg, raw = Some s /\ float_of_str s = Ok (FInf neg)).
Proof.
  unfold parse_frecuencia. destruct raw as [s|]; [|eauto].
  destruct (truthy (Some s)); [|eauto].
  destruct (float_of_str s) as [x|e] eqn:E.
  - cbn [bind]. destruct x as [neg m ex|neg|]; cbn; eauto 10.
  - rewrite (float_of_str_raise _ _ E). cbn. eauto.
Qed.

Lemma row_events_eq (pcs : list period_column) (r : row)
    (events : list CalibrationEvent) :
  row_events pcs r events
  = (new <- Spec.row_new pcs r ;; Ok (events ++ new)).
Proof.
  unfold row_events, Spec.row_new.
  destruct (negb _); [cbn; now rewrite app_nil_r|].
  destruct (Nat.ltb_spec (List.length r) base_columns) as [Hlt|Hge];
    [cbn; now rewrite app_nil_r|].
  unfold base_columns in Hge.
  destruct (index_nth r 4 ltac:(lia)) as (c4 & -> & ->).
  destruct (index_nth r 7 ltac:(lia)) as (c7 & -> & ->).
  destruct (index_nth r 8 ltac:(lia)) as (c8 & -> & ->).
  cbn [bind].
  destruct (normalize_text (Some c4)) as [cod|] eqn:N;
    [|cbn; now rewrite app_nil_r].
  rewrite (normalize_text_truthy _ _ N). cbn [negb].
  destruct (parse_frecuencia (normalize_text (Some c8))) as [freq|e];
    [|reflexivity].
  cbn [bind]. apply cells_events_eq.
Qed.

Lemma rows_events_eq (pcs : list period_column) (rows : list row)
    (events : list CalibrationEvent) :
  rows_events pcs rows events
  = (new <- Spec.rows_new pcs rows ;; Ok (events ++ new)).
Proof.
  revert events. induction rows as [|r rest IH]; intros events; simpl.
  - now rewrite app_nil_r.
  - rewrite row_events_eq.
    destruct (Spec.row_new pcs r) as [a|e]; [|reflexivity].
    cbn [bind]. rewrite IH.
    destruct (Spec.rows_new pcs rest) as [b|e]; [|reflexivity].
    cbn [bind]. now rewrite app_assoc.
Qed.

Lemma row_new_raise (pcs : list period_column) (r : row) (e : exn) :
  Spec.row_new pcs r = Raise e -> e = Exn OverflowError None.
Proof.
  unfold Spec.row_new.
  destruct (negb _); [discriminate|].
  destruct (_ <? _)%nat; [discriminate|].
  destruct (normalize_text (nth_error r 4)); [|discriminate].
  destruct (parse_frecuencia_cases (normalize_text (nth_error r 8)))
    as [[f ->] | [-> _]]; [discriminate|].
  now intros [= <-].
Qed.

Lemma rows_new_raise (pcs : list period_column) (rows : list row) (e : exn) :
  Spec.rows_new pcs rows = Raise e -> e = Exn OverflowError None.
Proof.
  induction rows as [|r rest IH]; simpl; [discriminate|].
  destruct (Spec.row_new pcs r) as [a|e'] eqn:E.
  - cbn [bind]. destruct (Spec.rows_new pcs rest) as [b|e'']; [discriminate|].
    intros [= <-]. now apply IH.
  - intros [= <-]. eapply row_new_raise; eauto.
Qed.

(** *** Comparisons that are total orders *)

#[local] Instance Z_order : Order Z.compare.
Proof.
  split.
  - apply Z.compare_refl.
  - apply Z.compare_eq.
  - intros a b. apply Z.compare_antisym.
  - intros a b c. rewrite !Z.compare_lt_iff. lia.
Qed.

#[local] Instance ascii_order : Order Ascii.compare.
Proof.
  split; unfold Ascii.compare.
  - intros a. apply N.compare_refl.
  - intros a b H. apply N.compare_eq in H.
    rewrite <- (ascii_N_embedding a), <- (ascii_N_embedding b). now f_equal.
  - intros a b. apply N.compare_antisym.
  - intros a b c. rewrite !N.compare_lt_iff. lia.
Qed.

#[local] Instance lex_order {A B : Type} (cmpA : A -> A -> comparison)
    (cmpB : B -> B -> comparison) `{!Order cmpA} `{!Order cmpB} :
  Order (lex cmpA cmpB).
Proof.
  split; unfold lex.
  - intros [a b]. simpl. now rewrite !cmp_refl.
  - intros [a b] [a' b']. simpl.
    destruct (cmpA a a') eqn:E; try discriminate.
    intros H. apply cmp_eq in E, H. now subst.
  - intros [a b] [a' b']. simpl. rewrite (cmp_antisym (cmp := cmpA) a a').
    destruct (cmpA a a'); simpl; auto. apply cmp_antisym.
  - intros [a1 b1] [a2 b2] [a3 b3]. simpl.
    destruct (cmpA a1 a2) eqn:E12; try discriminate;
      destruct (cmpA a2 a3) eqn:E23; try discriminate; intros H1 H2.
    + apply cmp_eq in E12, E23. subst. rewrite cmp_refl. eapply cmp_trans; eauto.
    + apply cmp_eq in E12. subst. now rewrite E23.
    + apply cmp_eq in E23. subst. now rewrite E12.
    + now rewrite (cmp_trans _ _ _ E12 E23).
Qed.

(** An order seen through an injection is an order. *)
Lemma order_through {A B : Type} (f : A -> B) (cmpB : B -> B -> comparison)
    (cmpA : A -> A -> comparison) `{!Order cmpB} :
  (forall x y, f x = f y -> x = y) ->
  (forall x y, cmpA x y = cmpB (f x) (f y)) ->
  Order cmpA.
Proof.
  intros Hinj Hcmp. split.
  - intros a. rewrite Hcmp. apply cmp_refl.
  - intros a b. rewrite Hcmp. intros H. now apply Hinj, cmp_eq.
  - intros a b. rewrite !Hcmp. apply cmp_antisym.
  - intros a b c. rewrite !Hcmp. apply cmp_trans.
Qed.

#[local] Instance string_order : Order String.compare.
Proof.
  apply (order_through
           (fix f (s : string) : list ascii :=
              match s with
              | EmptyString => []
              | String c r => c :: f r
              end)
           (fix cmp (x y : list ascii) : comparison :=
              match x, y with
              | [], [] => Eq
              | [], _ :: _ => Lt
              | _ :: _, [] => Gt
              | a :: x', b :: y' =>
                  match Ascii.compare a b with
                  | Eq => cmp x' y'
                  | c => c
                  end
              end)).
  - split.
    + induction a as [|c r IH]; simpl; [reflexivity|]. now rewrite cmp_refl.
    + induction a as [|c r IH]; intros [|c' r']; simpl; try discriminate; auto.
      destruct (Ascii.compare c c') eqn:E; try discriminate.
      intros H. apply cmp_eq in E. apply IH in H. now subst.
    + induction a as [|c r IH]; intros [|c' r']; simpl; auto.
      rewrite (cmp_antisym (cmp := Ascii.compare) c c').
      destruct (Ascii.compare c c'); simpl; auto.
    + induction a as [|c1 r1 IH]; intros [|c2 r2] [|c3 r3]; simpl;
        try discriminate; auto.
      destruct (Ascii.compare c1 c2) eqn:E12; try discriminate;
        destruct (Ascii.compare c2 c3) eqn:E23; try discriminate; intros H1 H2.
      * apply cmp_eq in E12, E23. subst. rewrite cmp_refl. eapply IH; eauto.
      * apply cmp_eq in E12. subst. now rewrite E23.
      * apply cmp_eq in E23. subst. now rewrite E12.
      * now rewrite (cmp_trans _ _ _ E12 E23).
  - induction x as [|c r IH]; intros [|c' r']; try discriminate; auto.
    intros [= -> H]. f_equal. now apply IH.
  - induction x as [|c r IH]; intros [|c' r']; simpl; auto.
    destruct (Ascii.compare c c'); auto.
Qed.

#[local] Instance date_order : Order date_compare.
Proof.
  apply (order_through
           (fun d => (Calendar.year d, (Calendar.month d, Calendar.day d)))
           (lex Z.compare (lex Z.compare Z.compare))).
  - typeclasses eauto.
  - intros [y m d] [y' m' d']. simpl. now intros [= -> -> ->].
  - intros x y. reflexivity.
Qed.

#[local] Instance key_order : Order key_compare.
Proof.
  apply (order_through
           (fun k : string * date * string => (fst (fst k), (snd (fst k), snd k)))
           (lex String.compare (lex date_compare String.compare))).
  - typeclasses eauto.
  - intros [[c f] p] [[c' f'] p']. simpl. now intros [= -> -> ->].
  - intros [[c f] p] [[c' f'] p']. reflexivity.
Qed.

(** *** The date extractor *)

(** C7.  [extract_date] is total: on every text it returns, without
    raising, either no date or a date that passes the calendar checks of
    [datetime.date]; the empty text, an unknown month token and day 31 of a
    30-day month give no date, and a two-digit year is read in 1980..2079. *)
Theorem extract_date_total :
  (forall value : string,
     exists r, extract_date value = Ok r /\
       match r with
       | Some d => valid_date d = true
       | None => True
       end) /\
  extract_date "" = Ok None /\
  extract_date "10-XYZ-24" = Ok None /\
  extract_date "31-ABR-24" = Ok None /\
  extract_date "10-ENE-24" = Ok (Some (Date 2024 1 10)) /\
  extract_date "10-ENE-80" = Ok (Some (Date 1980 1 10)).
Proof.
  split; [exact extract_date_ok|]. repeat split; reflexivity.
Qed.

(** *** Sorting *)

Lemma key_le_total (a b : CalibrationEvent) : key_rel a b \/ key_rel b a.
Proof.
  unfold key_rel, key_le.
  rewrite (cmp_antisym (cmp := key_compare) (sort_key a) (sort_key b)).
  destruct (key_compare (sort_key a) (sort_key b)); simpl; auto.
Qed.

Lemma key_le_trans (a b c : CalibrationEvent) :
  key_rel a b -> key_rel b c -> key_rel a c.
Proof.
  unfold key_rel, key_le.
  destruct (key_compare (sort_key a) (sort_key b)) eqn:E1; try discriminate;
    destruct (key_compare (sort_key b) (sort_key c)) eqn:E2; try discriminate;
    intros _ _.
  - apply cmp_eq in E1. rewrite E1, E2. reflexivity.
  - apply cmp_eq in E1. rewrite E1, E2. reflexivity.
  - apply cmp_eq in E2. rewrite <- E2, E1. reflexivity.
  - now rewrite (cmp_trans _ _ _ E1 E2).
Qed.

Lemma key_le_antisym (a b : CalibrationEvent) :
  key_rel a b -> key_rel b a -> sort_key a = sort_key b.
Proof.
  unfold key_rel, key_le.
  rewrite (cmp_antisym (cmp := key_compare) (sort_key a) (sort_key b)).
  destruct (key_compare (sort_key a) (sort_key b)) eqn:E; simpl;
    try discriminate.
  intros _ _. now apply cmp_eq.
Qed.

Lemma insert_event_perm (e : CalibrationEvent) (l : list CalibrationEvent) :
  Permutation (e :: l) (insert_event e l).
Proof.
  induction l as [|x t IH]; simpl; [reflexivity|].
  destruct (key_le e x); [reflexivity|].
  rewrite perm_swap. now apply perm_skip.
Qed.

Lemma sorted_events_perm (l : list CalibrationEvent) :
  Permutation l (sorted_events l).
Proof.
  induction l as [|e t IH]; simpl; [reflexivity|].
  rewrite <- insert_event_perm. now apply perm_skip.
Qed.

Lemma insert_event_sorted (e : CalibrationEvent) (l : list CalibrationEvent) :
  StronglySorted key_rel l -> StronglySorted key_rel (insert_event e l).
Proof.
  induction 1 as [|x t Ht IH Hx]; simpl.
  - repeat constructor.
  - destruct (key_le e x) eqn:E.
    + constructor; [now constructor|].
      constructor; [exact E|].
      eapply Forall_impl; [|exact Hx]. intros y Hy.
      eapply key_le_trans; eauto.
    + constructor; [exact IH|].
      rewrite <- insert_event_perm. constructor; [|exact Hx].
      destruct (key_le_total e x) as [H|H]; [unfold key_rel in H; congruence|].
      exact H.
Qed.

Lemma sorted_events_sorted (l : list CalibrationEvent) :
  StronglySorted key_rel (sorted_events l).
Proof.
  induction l as [|e t IH]; simpl; [constructor|].
  now apply insert_event_sorted.
Qed.

(** Two sorted arrangements of the same events coincide when the key
    determines the event. *)
Lemma sorted_perm_unique (l1 l2 : list CalibrationEvent) :
  StronglySorted key_rel l1 -> StronglySorted key_rel l2 ->
  Permutation l1 l2 ->
  (forall a b, In a l1 -> In b l1 -> sort_key a = sort_key b -> a = b) ->
  l1 = l2.
Proof.
  intros S1. revert l2. induction S1 as [|a t1 St1 IH Ha]; intros l2 S2 P Hk.
  - apply Permutation_nil in P. now subst.
  - destruct S2 as [|b t2 St2 Hb].
    + apply Permutation_sym, Permutation_nil in P. discriminate.
    + assert (a = b) as <-.
      { assert (Ia : In a (b :: t2)) by (eapply Permutation_in; [exact P | now left]).
        assert (Ib : In b (a :: t1))
          by (eapply Permutation_in; [symmetry; exact P | now left]).
        destruct Ia as [->|Ia]; [reflexivity|].
        destruct Ib as [->|Ib]; [reflexivity|].
        rewrite Forall_forall in Ha, Hb.
        symmetry. apply Hk; [now right | now left |].
        apply key_le_antisym; auto. }
      f_equal. apply IH; [exact St2 | eapply Permutation_cons_inv; exact P |].
      intros x y Hx Hy. apply Hk; now right.
Qed.

(** *** Reading the file *)


(** [iter_events] once the two header rows have been found. *)
Lemma iter_events_eq (fs : csv_files) (csv_path : string) (empresa_id : Z)
    (reader rest data : list row) (year_row header_row : row) :
  fs csv_path = Some reader ->
  _next_relevant_row reader = Ok (year_row, rest) ->
  _next_relevant_row rest = Ok (header_row, data) ->
  iter_events fs csv_path empresa_id
  = (new <- Spec.rows_new (Spec.columns_from year_row 0 header_row) data ;;
     Ok (sorted_events new)).
Proof.
  intros Hf H1 H2. unfold iter_events. rewrite Hf, H1. cbn [bind snd fst].
  rewrite H2. cbn [bind try_except snd fst].
  rewrite resolve_columns_eq. cbn [bind app].
  rewrite rows_events_eq.
  destruct (Spec.rows_new _ data); reflexivity.
Qed.

Lemma rows_new_perm (pcs : list period_column) (d1 d2 : list row) :
  Permutation d1 d2 ->
  match Spec.rows_new pcs d1, Spec.rows_new pcs d2 with
  | Ok a, Ok b => Permutation a b
  | Raise e1, Raise e2 => e1 = e2
  | _, _ => False
  end.
Proof.
  induction 1 as [|r l l' P IH|r r' l|l l' l'' P1 IH1 P2 IH2]; simpl.
  - reflexivity.
  - destruct (Spec.row_new pcs r) as [a|e]; cbn [bind]; [|reflexivity].
    destruct (Spec.rows_new pcs l), (Spec.rows_new pcs l'); cbn [bind];
      try tauto. now apply Permutation_app_head.
  - destruct (Spec.row_new pcs r) as [a|e] eqn:Ea;
      destruct (Spec.row_new pcs r') as [a'|e'] eqn:Ea'; cbn [bind].
    + destruct (Spec.rows_new pcs l) as [b|e'']; cbn [bind]; [|reflexivity].
      rewrite !app_assoc. apply Permutation_app_tail, Permutation_app_comm.
    + reflexivity.
    + reflexivity.
    + apply row_new_raise in Ea, Ea'. congruence.
  - destruct (Spec.rows_new pcs l), (Spec.rows_new pcs l'),
      (Spec.rows_new pcs l''); try tauto; try congruence.
    etransitivity; eauto.
Qed.

Lemma iter_events_sorted (fs : csv_files) (csv_path : string) (empresa_id : Z)
    (l : list CalibrationEvent) :
  iter_events fs csv_path empresa_id = Ok l -> StronglySorted key_rel l.
Proof.
  unfold iter_events. destruct (fs csv_path) as [reader|]; [|discriminate].
  intros H. apply bind_inv_ok in H as ([[yr hr] data] & _ & H).
  apply bind_inv_ok in H as (pcs & _ & H).
  apply bind_inv_ok in H as (events & _ & H).
  injection H as <-. apply sorted_events_sorted.
Qed.

(** C3, corrected.  Every sequence [iter_events] returns is sorted
    ascending by the key (code, date, period code).  For two files with the
    same two header rows whose data rows are permutations of each other,
    both runs fail alike or both return the same events, each sequence
    sorted, one a rearrangement of the other; the two sequences are
    identical whenever no two different events of the result share a key. *)
Theorem iter_events_permuted_rows :
  (forall (fs : csv_files) (csv_path : string) (empresa_id : Z)
          (l : list CalibrationEvent),
     iter_events fs csv_path empresa_id = Ok l -> StronglySorted key_rel l) /\
  (forall (fs : csv_files) (p1 p2 : string) (empresa_id : Z)
          (f1 f2 rest1 rest2 d1 d2 : list row) (year_row header_row : row),
     fs p1 = Some f1 -> fs p2 = Some f2 ->
     _next_relevant_row f1 = Ok (year_row, rest1) ->
     _next_relevant_row rest1 = Ok (header_row, d1) ->
     _next_relevant_row f2 = Ok (year_row, rest2) ->
     _next_relevant_row rest2 = Ok (header_row, d2) ->
     Permutation d1 d2 ->
     match iter_events fs p1 empresa_id, iter_events fs p2 empresa_id with
     | Ok l1, Ok l2 =>
         StronglySorted key_rel l1 /\ StronglySorted key_rel l2 /\
         Permutation l1 l2 /\
         ((forall a b, In a l1 -> In b l1 -> sort_key a = sort_key b -> a = b) ->
          l1 = l2)
     | Raise e1, Raise e2 => e1 = e2
     | _, _ => False
     end).
Proof.
  split; [exact iter_events_sorted|].
  intros fs p1 p2 emp f1 f2 rest1 rest2 d1 d2 yr hr F1 F2 A1 B1 A2 B2 P.
  rewrite (iter_events_eq _ _ _ _ _ _ _ _ F1 A1 B1).
  rewrite (iter_events_eq _ _ _ _ _ _ _ _ F2 A2 B2).
  pose proof (rows_new_perm (Spec.columns_from yr 0 hr) d1 d2 P) as H.
  destruct (Spec.rows_new _ d1) as [a|e1], (Spec.rows_new _ d2) as [b|e2];
    cbn [bind]; try exact H.
  assert (Ps : Permutation (sorted_events a) (sorted_events b)).
  { rewrite <- (sorted_events_perm a), <- (sorted_events_perm b). exact H. }
  repeat split; try apply sorted_events_sorted; [exact Ps|].
  intros Hk. apply sorted_perm_unique; auto using sorted_events_sorted.
Qed.

Lemma iter_events_permuted_rows_witness :
  let r1 := Sample.data_row "BAL-002" "" "12" ["10-ENE-24"; ""] in
  let r2 := Sample.data_row "BAL-001" "" "6" ["05-FEB-24"; "07-AGO-24"] in
  let hdr := [Sample.year_row; Sample.header_row] in
  let fs := Sample.two_files (hdr ++ [r1; r2]) (hdr ++ [r2; r1]) in
  Permutation [r1; r2] [r2; r1] /\
  iter_events fs "a.csv" 1 = iter_events fs "b.csv" 1.
Proof.
  intros r1 r2 hdr fs. split; [apply perm_swap|].
  pose proof (proj2 iter_events_permuted_rows fs "a.csv" "b.csv" 1
                (hdr ++ [r1; r2]) (hdr ++ [r2; r1])
                (Sample.header_row :: [r1; r2]) (Sample.header_row :: [r2; r1])
                [r1; r2] [r2; r1] Sample.year_row Sample.header_row
                eq_refl eq_refl eq_refl eq_refl eq_refl eq_refl
                (perm_swap r2 r1 [])) as H.
  destruct (iter_events fs "a.csv" 1) as [l1|e1] eqn:E1;
    destruct (iter_events fs "b.csv" 1) as [l2|e2] eqn:E2;
    try contradiction; [|now subst].
  destruct H as (_ & _ & _ & H). f_equal. apply H.
  vm_compute in E1. injection E1 as <-.
  intros a b Ha Hb Hk. simpl in Ha, Hb.
  repeat match goal with
         | H : _ \/ _ |- _ => destruct H as [<-|H]
         | H : False |- _ => destruct H
         end; try reflexivity; discriminate Hk.
Defined.

(** C3, counterexample.  Two data rows for the same instrument, date and
    period that differ in their requirement text: swapping the rows swaps
    the two events of the result. *)
Lemma iter_events_row_order_shows :
  let r1 := Sample.data_row "BAL-001" "masa" "12" ["10-ENE-24"; ""] in
  let r2 := Sample.data_row "BAL-001" "longitud" "12" ["10-ENE-24"; ""] in
  let hdr := [Sample.year_row; Sample.header_row] in
  let fs := Sample.two_files (hdr ++ [r1; r2]) (hdr ++ [r2; r1]) in
  let e1 := Event "BAL-001" (Date 2024 1 10) "P1" "PERIODO 1" 2024
                  (Some "masa") (Some 12) in
  let e2 := Event "BAL-001" (Date 2024 1 10) "P1" "PERIODO 1" 2024
                  (Some "longitud") (Some 12) in
  Permutation [r1; r2] [r2; r1] /\
  iter_events fs "a.csv" 1 = Ok [e1; e2] /\
  iter_events fs "b.csv" 1 = Ok [e2; e1] /\
  iter_events fs "a.csv" 1 <> iter_events fs "b.csv" 1.
Proof.
  intros r1 r2 hdr fs e1 e2.
  assert (A : iter_events fs "a.csv" 1 = Ok [e1; e2]) by reflexivity.
  assert (B : iter_events fs "b.csv" 1 = Ok [e2; e1]) by reflexivity.
  split; [apply perm_swap|]. split; [exact A|]. split; [exact B|].
  rewrite A, B. discriminate.
Qed.

(** *** The SQL emitter *)

Lemma append_assoc (a b c : string) : ((a ++ b) ++ c = a ++ (b ++ c))%string.
Proof. induction a as [|x a IH]; simpl; [reflexivity | now rewrite IH]. Qed.

Lemma values_line_format (e t f p fp o : string) :
  Format.format values_line
    [ ("empresa_id", e); ("tipo", t); ("fecha", f); ("periodo", p);
      ("fecha_proxima", fp); ("observaciones", o) ]
  = Ok ("SELECT @instrumento_id, " ++ e ++ ", '" ++ t ++ "', '" ++ f ++
        "', '" ++ p ++ "', " ++ fp ++ ", NULL, '" ++ o ++
        "' FROM DUAL WHERE @instrumento_id IS NOT NULL AND NOT EXISTS (" ++
        "SELECT 1 FROM calibraciones WHERE instrumento_id = @instrumento_id " ++
        "AND empresa_id = " ++ e ++ " AND fecha_calibracion = '" ++ f ++
        "' AND periodo = '" ++ p ++ "');")%string.
Proof. vm_compute. reflexivity. Qed.

Lemma add_months_cases (d : date) (n : Z) :
  (exists d', add_months d n = Ok d') \/
  add_months d n = builtin_error ValueError \/
  add_months d n = builtin_error OverflowError.
Proof.
  rewrite add_months_eq.
  match goal with |- context [date_new ?a ?b ?c] =>
    destruct (date_new_cases a b c) as [[-> _] | [[-> _] | [-> _]]] end; eauto.
Qed.

Lemma has_frecuencia_pos (n : Z) : has_frecuencia (Some n) = (0 <? n).
Proof.
  unfold has_frecuencia. destruct (Z.eqb_spec n 0) as [->|Hn]; [reflexivity|].
  reflexivity.
Qed.

(** On an event with a valid date, the overflow is that of the year. *)
Lemma overflows_valid (e : CalibrationEvent) :
  valid_date (fecha e) = true -> Spec.overflows e = Spec.past_int_year e.
Proof.
  intros V. unfold Spec.overflows, Spec.past_int_year, Spec.due_year.
  destruct (frecuencia_meses e) as [n|]; [|reflexivity].
  rewrite has_frecuencia_pos. destruct (Z.ltb_spec 0 n) as [Hn|Hn]; [|reflexivity].
  cbn [andb].
  destruct (add_months_outcome (fecha e) n V) as (_ & -> & _).
  apply valid_ymd_iff in V as (Hy & Hmo & _). unfold MINYEAR, MAXYEAR in *.
  set (idx := Calendar.month (fecha e) - 1 + n).
  assert (0 <= idx / 12) by (apply Z.div_pos; unfold idx; lia).
  set (y := Calendar.year (fecha e) + idx / 12).
  assert (Hy1 : 1 <= y) by (unfold y; lia). clearbody y.
  unfold fits_int, INT_MIN, INT_MAX.
  change (- 2 ^ 31) with (- 2147483648). change (2 ^ 31 - 1) with 2147483647.
  destruct (Z.leb_spec 1 y); [|lia].
  destruct (Z.leb_spec y 9999); cbn [andb].
  - destruct (Z.ltb_spec 2147483647 y); [lia | reflexivity].
  - destruct (Z.leb_spec (-2147483648) y); [|lia]. cbn [andb].
    destruct (Z.leb_spec y 2147483647), (Z.ltb_spec 2147483647 y);
      try lia; reflexivity.
Qed.

(** The lines one event adds to the script, unless its projection
    overflows. *)
Lemma event_lines_eq (empresa_id : Z) (lines : list string)
    (e : CalibrationEvent) :
  event_lines empresa_id lines e =
    if Spec.overflows e then builtin_error OverflowError
    else Ok (lines ++ Spec.statements empresa_id e).
Proof.
  unfold event_lines.
  assert (Hn :
    match frecuencia_meses e with
    | Some n =>
        if has_frecuencia (frecuencia_meses e) then
          try_except (d <- add_months (fecha e) n ;; Ok (Some d))
                     ValueError (Ok None)
        else Ok None
    | None => Ok None
    end = if Spec.overflows e then builtin_error OverflowError
          else Ok (Spec.next_due e)).
  { unfold Spec.next_due, Spec.overflows.
    destruct (frecuencia_meses e) as [n|]; [|reflexivity].
    destruct (has_frecuencia (Some n)); [|reflexivity]. cbn [andb].
    destruct (add_months_cases (fecha e) n) as [[d' ->] | [-> | ->]];
      reflexivity. }
  rewrite Hn. destruct (Spec.overflows e); [reflexivity|].
  cbn [bind]. rewrite values_line_format. cbn [bind].
  rewrite <- !app_assoc. do 2 f_equal.
  unfold Spec.statements, Spec.lookup_stmt. cbn [app]. f_equal. f_equal. f_equal.
  unfold Spec.projection, Spec.guard, Spec.next_due_sql, Spec.tipo_of,
    Spec.observaciones_of.
  rewrite !append_assoc. cbn [append].
  destruct (requerimiento e) as [[|c r]|]; reflexivity.
Qed.

Lemma events_lines_eq (empresa_id : Z) (events : list CalibrationEvent)
    (lines : list string) :
  events_lines empresa_id events lines
  = if existsb Spec.overflows events then builtin_error OverflowError
    else Ok (lines ++ flat_map (Spec.statements empresa_id) events).
Proof.
  revert lines. induction events as [|e rest IH]; intros lines; simpl.
  - now rewrite app_nil_r.
  - rewrite event_lines_eq. destruct (Spec.overflows e); [reflexivity|].
    cbn [bind orb]. rewrite IH.
    destruct (existsb Spec.overflows rest); [reflexivity|].
    now rewrite <- !app_assoc.
Qed.

(** The script for a non-empty list of events, and when there is none. *)
Lemma build_sql_eq (e : CalibrationEvent) (rest : list CalibrationEvent)
    (empresa_id : Z) :
  build_sql (e :: rest) empresa_id
  = if existsb Spec.overflows (e :: rest) then builtin_error OverflowError
    else
      Ok (join nl
            ([ "-- Calibraciones programadas generadas desde CERT_instrumentos_original_v2.csv";
               ("-- Empresa destino: " ++ str_of_Z empresa_id)%string;
               "START TRANSACTION;" ] ++
             flat_map (Spec.statements empresa_id) (e :: rest) ++
             ["COMMIT;"; EmptyString])).
Proof.
  unfold build_sql. rewrite events_lines_eq.
  destruct (existsb Spec.overflows (e :: rest)); [reflexivity|].
  cbn [bind]. now rewrite <- !app_assoc.
Qed.




(** *** The end-to-end scenario *)

(** C1, corrected.  With the period columns of the two header rows at
    indices 9 and 10, where the fixed layout puts them, and one data row
    with code BAL-001, frequency 12, the period-1 cell 10-ENE-24 and the
    period-2 cell blank, [iter_events] returns exactly one event (BAL-001,
    2024-01-10, P1, year 2024, frequency 12), and [build_sql] emits for it
    one guarded insert whose next-due literal is 2025-01-10. *)
Theorem end_to_end_scenario :
  let sheet :=
    [ Sample.year_row; Sample.header_row;
      Sample.data_row "BAL-001" "" "12" ["10-ENE-24"; ""] ] in
  let ev := Event "BAL-001" (Date 2024 1 10) "P1" "PERIODO 1" 2024 None (Some 12) in
  iter_events (Sample.two_files sheet []) "a.csv" 1 = Ok [ev] /\
  exists sql : string,
    build_sql [ev] 1 = Ok sql /\
    sql = join nl
      [ "-- Calibraciones programadas generadas desde CERT_instrumentos_original_v2.csv";
        "-- Empresa destino: 1";
        "START TRANSACTION;";
        "SET @instrumento_id = (SELECT id FROM instrumentos WHERE codigo = 'BAL-001' AND empresa_id = 1 LIMIT 1);";
        "INSERT INTO calibraciones (instrumento_id, empresa_id, tipo, fecha_calibracion, periodo, fecha_proxima, resultado, observaciones)";
        ("SELECT @instrumento_id, 1, '" ++ u8 "Calibración programada" ++
         "', '2024-01-10', 'P1', '2025-01-10', NULL, " ++
         "'PERIODO 1 2024. Fuente: CERT_instrumentos_original_v2.csv' " ++
         "FROM DUAL WHERE @instrumento_id IS NOT NULL AND NOT EXISTS (" ++
         "SELECT 1 FROM calibraciones WHERE instrumento_id = @instrumento_id " ++
         "AND empresa_id = 1 AND fecha_calibracion = '2024-01-10' AND periodo = 'P1');")%string;
        EmptyString;
        "COMMIT;";
        EmptyString ] /\
    Spec.count_occurrences "INSERT INTO" sql = 1%nat /\
    Spec.count_occurrences "WHERE @instrumento_id IS NOT NULL AND NOT EXISTS" sql = 1%nat /\
    Spec.count_occurrences "'2025-01-10'" sql = 1%nat.
Proof.
  intros sheet ev. split; [reflexivity|].
  eexists. split; [reflexivity|]. repeat split; vm_compute; reflexivity.
Qed.

(** C1, counterexample.  With the header rows exactly as the scenario
    writes them, five blank cells and then the two period columns at
    indices 5 and 6, no period column lies past the fixed prefix of nine:
    the run yields no event and the script is the no-events comment,
    whether the data row follows the header's columns or the fixed
    layout. *)
Lemma scenario_headers_resolve_nothing :
  let year_row := Sample.blanks 5 ++ ["2024"; "2024"] in
  let header_row := Sample.blanks 5 ++ ["PERIODO 1"; "PERIODO 2"] in
  let aligned := Sample.blanks 4 ++ ["BAL-001"; "10-ENE-24"; ""; ""; "12"] in
  let layout := Sample.data_row "BAL-001" "" "12" ["10-ENE-24"; ""] in
  let fs := Sample.two_files [year_row; header_row; aligned]
                             [year_row; header_row; layout] in
  iter_events fs "a.csv" 1 = Ok [] /\
  iter_events fs "b.csv" 1 = Ok [] /\
  build_sql [] 1
  = Ok ("-- No se detectaron eventos en el CSV proporcionado." ++ nl)%string.
Proof. repeat split; reflexivity. Qed.

(** *** Sentinel cells *)

Lemma mem_In (x : string) (l : list string) : mem x l = true <-> In x l.
Proof.
  unfold mem. rewrite existsb_exists. split.
  - intros (y & Hy & E). apply String.eqb_eq in E. now subst.
  - intros H. exists x. split; [exact H | apply String.eqb_refl].
Qed.

Lemma normalize_text_sentinel (c : string) :
  Spec.sentinel c -> normalize_text (Some c) = None.
Proof.
  unfold Spec.sentinel, normalize_text. intros H.
  apply mem_In in H. now rewrite H.
Qed.

Lemma sentinel_no_period (c : string) :
  Spec.sentinel c -> dict_get PERIOD_MAP (upper (strip c)) = None.
Proof.
  intros H. apply mem_In, mem_NA_cases in H.
  destruct H as [E|[E|[E|[E|[E|E]]]]]; rewrite E; reflexivity.
Qed.

Lemma cell_of_frecuencia (r : row) (cod : string) (req : option string)
    (freq : option Z) (pc : period_column) (e : CalibrationEvent) :
  Spec.cell_of r cod req freq pc = Some e -> frecuencia_meses e = freq.
Proof.
  destruct pc as [[[idx per] lbl] y]. unfold Spec.cell_of.
  destruct (nth_error r idx); [|discriminate].
  destruct (normalize_text _); [|discriminate].
  destruct (extract_date _) as [[d|]|]; try discriminate.
  now intros [= <-].
Qed.

(** C9.  A cell whose trimmed text is one of the sentinel values is
    treated as absent: as instrument code it makes the row add no event; as
    frequency it leaves every event of the row without frequency; as year
    or label cell of the header it leaves its column out of the resolved
    mapping; as period-value cell it gives no event for its column. *)
Theorem sentinel_cells_are_absent (c : string) :
  Spec.sentinel c ->
  (forall pcs r events,
     nth_error r 4 = Some c -> row_events pcs r events = Ok events) /\
  (forall pcs r events,
     nth_error r 8 = Some c ->
     exists new,
       row_events pcs r events = Ok (events ++ new) /\
       Forall (fun e => frecuencia_meses e = None) new) /\
  (forall year_row header_row idx,
     nth_error year_row idx = Some c \/ nth_error header_row idx = Some c ->
     exists pcs,
       resolve_columns year_row 0 header_row [] = Ok pcs /\
       forall key lbl y, ~ In (idx, key, lbl, y) pcs) /\
  (forall r cod req freq idx per lbl y,
     nth_error r idx = Some c ->
     cell_event r cod req freq (idx, per, lbl, y) = Ok None).
Proof.
  intros S. pose proof (normalize_text_sentinel c S) as N.
  split; [|split; [|split]].
  - intros pcs r events H4. rewrite row_events_eq. unfold Spec.row_new.
    destruct (negb _); [cbn; now rewrite app_nil_r|].
    destruct (_ <? _)%nat; [cbn; now rewrite app_nil_r|].
    rewrite H4, N. cbn. now rewrite app_nil_r.
  - intros pcs r events H8. rewrite row_events_eq. unfold Spec.row_new.
    destruct (negb _); [exists []; cbn; auto|].
    destruct (_ <? _)%nat; [exists []; cbn; auto|].
    destruct (normalize_text (nth_error r 4)) as [cod|]; [|exists []; cbn; auto].
    rewrite H8, N. cbn [parse_frecuencia bind]. eexists. split; [reflexivity|].
    apply Forall_forall. intros e He. apply in_flat_map in He as (pc & _ & He).
    destruct (Spec.cell_of r cod _ None pc) as [e'|] eqn:E; simpl in He;
      [|contradiction].
    destruct He as [<-|[]]. eapply cell_of_frecuencia; eauto.
  - intros year_row header_row idx H.
    exists (Spec.columns_from year_row 0 header_row).
    split; [apply (resolve_columns_eq year_row header_row 0 [])|].
    intros key lbl y Hin. apply in_columns_from in Hin as (j & label & Hn & Hc).
    simpl in Hc. apply column_of_some in Hc as (-> & _ & _ & Hk & yc & Ey & Ei).
    destruct H as [H|H].
    + rewrite H in Ey. injection Ey as <-.
      apply int_of_str_not_NA in Ei. apply mem_In in S. congruence.
    + rewrite H in Hn. injection Hn as <-.
      rewrite (sentinel_no_period c S) in Hk. discriminate.
  - intros r cod req freq idx per lbl y H. rewrite cell_event_eq.
    unfold Spec.cell_of. now rewrite H, N.
Qed.

Lemma sentinel_cells_are_absent_witness :
  Spec.sentinel " N/A " /\
  row_events [(9%nat, "P1", "PERIODO 1", 2024)]
    (Sample.data_row " N/A " "" "12" ["10-ENE-24"]) [] = Ok [] /\
  cell_event (Sample.data_row "BAL-001" "" "12" [" N/A "]) "BAL-001" None
    (Some 12) (9%nat, "P1", "PERIODO 1", 2024) = Ok None.
Proof.
  assert (S : Spec.sentinel " N/A ") by (vm_compute; auto 10).
  destruct (sentinel_cells_are_absent " N/A " S) as (Ha & _ & _ & Hd).
  split; [exact S|]. split.
  - apply Ha. reflexivity.
  - apply Hd. reflexivity.
Defined.

(** *** Failures of a run *)

Lemma next_relevant_row_filter (reader : list row) :
  match _next_relevant_row reader with
  | Ok (r, rest) =>
      filter Spec.nonblank reader = r :: filter Spec.nonblank rest
  | Raise e => e = Exn StopIteration None /\ filter Spec.nonblank reader = []
  end.
Proof.
  unfold Spec.nonblank.
  induction reader as [|r rest IH]; simpl; [auto|].
  destruct (existsb _ r); [reflexivity | exact IH].
Qed.

Lemma normalize_text_option (o : option string) (s : string) :
  normalize_text o = Some s -> exists c, o = Some c /\ s = strip c.
Proof.
  destruct o as [c|]; [|discriminate]. intros H.
  apply normalize_text_some in H as [-> _]. eauto.
Qed.

(** C6, at the failing input.  The search stops at the first text shaped
    like a date: when its month token is unknown the answer is "no date",
    although the same cell holds a recognizable date further on, which
    [extract_date] does return when it stands alone. *)
Theorem first_shaped_token_decides :
  Regex.search DATE_REGEX "10-XYZ-24 15-MAR-24" = Some ["10"; "XYZ"; "24"] /\
  extract_date "10-XYZ-24 15-MAR-24" = Ok None /\
  extract_date "15-MAR-24" = Ok (Some (Date 2024 3 15)).
Proof. repeat split; reflexivity. Qed.

(** C8, at the failing input.  The file exists and has its two header
    rows, yet the run fails: the frequency cell "inf" of the data row makes
    [iter_events] raise [OverflowError], which the handler for [ValueError]
    around the conversion does not catch; [main] then writes no file.  The
    missing file and the sheet with a single non-blank row fail as
    specified, and the same sheet with frequency "12" is written out with a
    count of one event. *)
Theorem infinite_frequency_aborts_run :
  let sheet freq :=
    [ Sample.year_row; Sample.header_row;
      Sample.data_row "BAL-001" "" freq ["10-ENE-24"; ""] ] in
  let fs := Sample.two_files (sheet "inf") [Sample.year_row] in
  iter_events fs "a.csv" 1 = Raise (Exn OverflowError None) /\
  main_historical fs "a.csv" "out.sql" 1
  = Run (Some (Exn OverflowError None)) [] [] /\
  iter_events fs "c.csv" 1
  = Raise (Exn FileNotFoundError
             (Some (u8 "No se encontró el archivo: c.csv"))) /\
  iter_events fs "b.csv" 1
  = Raise (Exn ValueError (Some "El CSV no contiene encabezados suficientes.")) /\
  exists sql,
    main_historical (Sample.two_files (sheet "12") []) "a.csv" "out.sql" 1
    = Run None [("out.sql", sql)] [Spec.report 1 "out.sql"].
Proof.
  intros sheet fs. repeat split; try reflexivity.
  eexists. vm_compute. reflexivity.
Qed.

(** C10, at the failing input.  A frequency cell that reads as a decimal
    number beyond the range of a float, or as an infinity, is converted to
    an infinite float, and its conversion to an integer raises
    [OverflowError] past the handler for [ValueError]: the run aborts.
    Cells such as "12.5" are truncated toward zero, and text that is no
    number or reads as NaN gives no frequency. *)
Theorem huge_frequency_aborts_run :
  let sheet freq :=
    [ Sample.year_row; Sample.header_row;
      Sample.data_row "BAL-001" "" freq ["10-ENE-24"; ""] ] in
  float_of_str "1e999" = Ok (FInf false) /\
  parse_frecuencia (normalize_text (Some "1e999"))
  = Raise (Exn OverflowError None) /\
  parse_frecuencia (normalize_text (Some "inf"))
  = Raise (Exn OverflowError None) /\
  iter_events (Sample.two_files (sheet "1e999") []) "a.csv" 1
  = Raise (Exn OverflowError None) /\
  parse_frecuencia (normalize_text (Some "12.5")) = Ok (Some 12) /\
  parse_frecuencia (normalize_text (Some "-3.9")) = Ok (Some (-3)) /\
  parse_frecuencia (normalize_text (Some "doce")) = Ok None /\
  parse_frecuencia (normalize_text (Some "nan")) = Ok None.
Proof. intros sheet. repeat split; vm_compute; reflexivity. Qed.

Example ordinals_examples :
  Modern.toordinal (Date 1 1 1) = 1 /\
  Modern.toordinal (Date 9999 12 31) = Modern.MAXORDINAL /\
  Modern.fromordinal 1 = Date 1 1 1 /\
  Modern.fromordinal Modern.MAXORDINAL = Date 9999 12 31 /\
  Modern.fromordinal (Modern.toordinal (Date 2024 2 29)) = Date 2024 2 29 /\
  Modern.fromordinal (Modern.toordinal (Date 2024 12 31)) = Date 2024 12 31 /\
  Modern.fromordinal (Modern.toordinal (Date 2100 3 1)) = Date 2100 3 1 /\
  Modern.add_days (Date 2024 8 31) 180 = Ok (Date 2025 2 27) /\
  Modern.add_days (Date 9999 12 1) 31 = Raise (Exn OverflowError None).
Proof. repeat split; reflexivity. Qed.

(** *** Escaping *)

(** X1.  In the text [sql_escape] returns the single quotes come in
    pairs: read from the left, a quote is always directly followed by a
    second quote, and the reading goes on after that pair. *)
Theorem sql_escape_quotes_paired (value : string) :
  Shape.quotes_paired (sql_escape value) = true.
Proof.
  unfold sql_escape. induction value as [|c r IH]; [reflexivity|].
  cbn [replace_char]. destruct (Ascii.eqb c "'") eqn:E.
  - cbn. exact IH.
  - cbn [Shape.quotes_paired]. rewrite E. exact IH.
Qed.

(** X2.  [sql_escape] loses nothing: two texts with the same escaped form
    are the same text. *)
Theorem sql_escape_injective (a b : string) :
  sql_escape a = sql_escape b -> a = b.
Proof.
  unfold sql_escape. revert b.
  induction a as [|c ra IH]; intros [|d rb]; cbn [replace_char].
  - reflexivity.
  - destruct (Ascii.eqb d "'"); discriminate.
  - destruct (Ascii.eqb c "'"); discriminate.
  - destruct (Ascii.eqb_spec c "'") as [->|Hc];
      destruct (Ascii.eqb_spec d "'") as [->|Hd]; cbn.
    + intros [= H]. f_equal. now apply IH.
    + intros [= H _]. congruence.
    + intros [= H _]. congruence.
    + intros [= -> H]. f_equal. now apply IH.
Qed.

Lemma sql_escape_injective_witness :
  sql_escape "O'Brien" = sql_escape "O'Brien" /\ "O'Brien" = "O'Brien".
Proof.
  split; [reflexivity|]. apply sql_escape_injective. reflexivity.
Defined.

(** *** Normalised cells *)

Lemma normalize_text_facts (value : option string) (v : string) :
  normalize_text value = Some v ->
  v <> EmptyString /\ ~ In v NA_VALUES /\ strip v = v /\
  normalize_text (Some v) = Some v.
Proof.
  intros H. apply normalize_text_option in H as H'.
  destruct H' as (c & -> & ->).
  apply normalize_text_some in H as [_ Hm].
  assert (Hs : strip (strip c) = strip c) by apply strip_idem.
  repeat split.
  - intros E. rewrite E in Hm. discriminate.
  - intros Hin. apply mem_In in Hin. congruence.
  - exact Hs.
  - apply normalize_text_some. rewrite Hs. auto.
Qed.

(** X3.  A text [normalize_text] returns is never empty and never one of
    the sentinel values, carries no surrounding whitespace, and is left
    unchanged by a second pass. *)
Theorem normalize_text_normal (value : option string) (v : string) :
  normalize_text value = Some v ->
  v <> EmptyString /\ ~ In v NA_VALUES /\ strip v = v /\
  normalize_text (Some v) = Some v.
Proof. apply normalize_text_facts. Qed.

Lemma normalize_text_normal_witness :
  normalize_text (Some "  BAL-001 ") = Some "BAL-001" /\
  normalize_text (Some "BAL-001") = Some "BAL-001".
Proof.
  split; [reflexivity|].
  exact (proj2 (proj2 (proj2
           (normalize_text_normal (Some "  BAL-001 ") "BAL-001" eq_refl)))).
Defined.

(** *** Locating the header rows *)

Lemma truthy_strip_blank (c : string) :
  truthy (Some (strip c)) = false <-> Shape.blank_cell c.
Proof.
  unfold Shape.blank_cell. destruct (strip c); simpl; split; congruence.
Qed.

(** X4.  [_next_relevant_row] returns the first row that has a cell which
    is not empty once trimmed, together with the rows after it; the rows
    it passes over consist of blank cells only.  It raises [StopIteration]
    exactly when every remaining row is blank. *)
Theorem next_relevant_row_first (reader : list row) :
  match _next_relevant_row reader with
  | Ok (r, rest) =>
      exists skipped,
        reader = skipped ++ r :: rest /\
        Forall Shape.blank_row skipped /\
        Exists (fun c => ~ Shape.blank_cell c) r
  | Raise e => e = Exn StopIteration None /\ Forall Shape.blank_row reader
  end.
Proof.
  induction reader as [|r rest IH]; cbn [_next_relevant_row];
    [split; [reflexivity | constructor]|].
  destruct (existsb _ r) eqn:E.
  - exists []. split; [reflexivity|]. split; [constructor|].
    apply existsb_exists in E as (c & Hc & Ht). apply Exists_exists.
    exists c. split; [exact Hc|]. intros Hb.
    unfold Shape.blank_cell in Hb. cbv beta in Ht. rewrite Hb in Ht.
    discriminate Ht.
  - assert (Hr : Shape.blank_row r).
    { apply Forall_forall. intros c Hc. apply truthy_strip_blank.
      destruct (truthy (Some (strip c))) eqn:T; [|reflexivity].
      assert (X : existsb (fun cell => truthy (Some (strip cell))) r = true)
        by (apply existsb_exists; eauto).
      rewrite X in E. discriminate E. }
    destruct (_next_relevant_row rest) as [[r' rest']|e].
    + destruct IH as (skipped & -> & Hs & Hx).
      exists (r :: skipped). repeat split; auto.
    + destruct IH as [-> Hall]. split; [reflexivity|]. now constructor.
Qed.

(** *** Years the extractor returns *)

Lemma digitpart_nonneg (s : string) (b : bool) (acc n v k : Z) :
  0 <= acc -> digitpart b acc n s = Some (v, k) -> 0 <= v.
Proof.
  revert b acc n. induction s as [|c r IH]; intros b acc n Hacc;
    cbn [digitpart].
  - destruct b; [|discriminate]. now intros [= <- _].
  - destruct (is_digit c) eqn:Hc.
    + apply IH. unfold is_digit, in_range in Hc.
      apply andb_prop in Hc as [H1 _]. apply Z.leb_le in H1.
      unfold digit_val. lia.
    + destruct (Ascii.eqb c "_" && b); [|discriminate]. now apply IH.
Qed.

Lemma int_of_str_digits_nonneg (s : string) (v : Z) :
  s <> EmptyString -> all_chars is_digit s = true ->
  int_of_str s = Ok v -> 0 <= v.
Proof.
  intros Hne H E.
  destruct (int_of_str_digits_eq s Hne H) as (w & _ & Hw & E').
  rewrite E' in E. destruct (MAX_STR_DIGITS <? _); [discriminate|].
  injection E as <-. lia.
Qed.

(** The date [extract_date] returns has the year read from the third
    group of the match, moved into 1980..2079 when it is below 100. *)
Lemma extract_date_years (value : string) (d : date) :
  extract_date value = Ok (Some d) ->
  exists (day_raw month_raw year_raw : string) (v : Z),
    Regex.search DATE_REGEX value = Some [day_raw; month_raw; year_raw] /\
    int_of_str year_raw = Ok v /\ 0 <= v <= 9999 /\
    Calendar.year d
      = (if v <? 100 then v + (if v <=? 79 then 2000 else 1900) else v) /\
    (v < 100 -> 1980 <= Calendar.year d <= 2079) /\
    100 <= Calendar.year d <= 9999.
Proof.
  unfold extract_date.
  destruct (negb (truthy (Some value))); [discriminate|].
  destruct (Regex.search DATE_REGEX value) as [gs|] eqn:E; [|discriminate].
  destruct (date_regex_groups _ _ E)
    as (dr & m & y & -> & [Hd Ld] & Dd & _ & [Hy Ly] & Dy).
  destruct (int_of_str_group dr 2 Hd Ld ltac:(lia) Dd) as (dv & -> & Bd).
  destruct (int_of_str_group y 4 Hy Ly ltac:(lia) Dy) as (yv & Ey & By).
  change (10 ^ Z.of_nat 4) with 10000 in By.
  cbn [bind].
  match goal with |- context [dict_get SPANISH_MONTHS ?k] =>
    destruct (dict_get SPANISH_MONTHS k) as [mo|] end; [|discriminate].
  destruct (mo =? 0); [discriminate|].
  rewrite Ey. cbn [bind].
  match goal with |- context [date_new ?a ?b ?c] =>
    destruct (date_new_cases a b c) as [[-> V] | [[-> _] | [-> _]]] end;
    [|discriminate ..].
  cbn. intros [= <-]. cbn [Calendar.year].
  exists dr, m, y, yv.
  split; [reflexivity|]. split; [exact Ey|]. split; [lia|].
  split; [reflexivity|].
  destruct (Z.ltb_spec yv 100); [|lia].
  destruct (Z.leb_spec yv 79); lia.
Qed.

(** X5.  The year of a date [extract_date] returns is the number [int]
    reads from the year group of the match, at most 9999, when that
    number is 100 or more; a number below 100 is moved into 1980..2079
    (0..79 to 2000..2079, 80..99 to 1980..1999).  So no returned date
    lies before year 100. *)
Theorem extract_date_year_floor (value : string) (d : date) :
  extract_date value = Ok (Some d) ->
  exists (day_raw month_raw year_raw : string) (v : Z),
    Regex.search DATE_REGEX value = Some [day_raw; month_raw; year_raw] /\
    int_of_str year_raw = Ok v /\ 0 <= v <= 9999 /\
    Calendar.year d
      = (if v <? 100 then v + (if v <=? 79 then 2000 else 1900) else v) /\
    (v < 100 -> 1980 <= Calendar.year d <= 2079) /\
    100 <= Calendar.year d <= 9999.
Proof. apply extract_date_years. Qed.

Lemma extract_date_year_floor_witness :
  extract_date "1-ENE-005" = Ok (Some (Date 2005 1 1)) /\
  extract_date "1-ENE-80" = Ok (Some (Date 1980 1 1)) /\
  exists (day_raw month_raw year_raw : string) (v : Z),
    Regex.search DATE_REGEX "1-ENE-005" = Some [day_raw; month_raw; year_raw] /\
    int_of_str year_raw = Ok v /\ 2005 = v + 2000.
Proof.
  split; [reflexivity|]. split; [reflexivity|].
  destruct (extract_date_year_floor "1-ENE-005" (Date 2005 1 1) eq_refl)
    as (dr & mr & yr & v & Hs & Hi & Hv & Hy & _).
  exists dr, mr, yr, v. split; [exact Hs|]. split; [exact Hi|].
  cbn [Calendar.year] in Hy.
  destruct (Z.ltb_spec v 100) as [Hlt|Hge].
  - destruct (Z.leb_spec v 79); lia.
  - exfalso. vm_compute in Hs. injection Hs as <- <- <-.
    vm_compute in Hi. injection Hi as <-. lia.
Defined.

(** *** Matching a text of known shape *)

Lemma run_exact (p : ascii -> bool) (cap : option nat) (a tail : string) :
  all_chars p a = true ->
  cap = Some (String.length a) \/
  ((match cap with Some k => (String.length a <= k)%nat | None => True end) /\
   match tail with String c _ => p c = false | EmptyString => True end) ->
  Regex.run p cap (a ++ tail) = String.length a.
Proof.
  revert cap. induction a as [|c r IH]; intros cap Ha Hc.
  - cbn [append String.length]. destruct Hc as [-> | [_ Ht]].
    + destruct tail as [|c t]; [reflexivity|]. simpl. now destruct (p c).
    + destruct tail as [|c t]; [reflexivity|]. simpl. now rewrite Ht.
  - cbn [all_chars] in Ha. apply andb_prop in Ha as [Hpc Hr].
    destruct Hc as [-> | [Hk Ht]].
    + cbn [append String.length Regex.run]. rewrite Hpc.
      f_equal. apply IH; auto.
    + cbn [append String.length Regex.run]. rewrite Hpc.
      destruct cap as [[|k]|].
      * simpl in Hk. lia.
      * f_equal. apply IH; [exact Hr|]. right. split; [simpl in Hk; lia | exact Ht].
      * f_equal. apply IH; [exact Hr|]. right. auto.
Qed.

Lemma append_empty_r (a : string) : (a ++ EmptyString)%string = a.
Proof. induction a as [|c r IH]; simpl; [reflexivity | now rewrite IH]. Qed.

Lemma take_app (a tail : string) : Regex.take (String.length a) (a ++ tail) = a.
Proof.
  induction a as [|c r IH]; simpl; [now destruct tail | now rewrite IH].
Qed.

Lemma drop_app (a tail : string) : Regex.drop (String.length a) (a ++ tail) = tail.
Proof.
  induction a as [|c r IH]; simpl; [now destruct tail | exact IH].
Qed.

Lemma first_down_hit {A : Type} (f : nat -> option A) (lo n : nat) (x : A) :
  (lo <= n)%nat -> f n = Some x -> Regex.first_down f lo n = Some x.
Proof.
  intros Hle Hf. destruct n as [|n]; simpl.
  - destruct (Nat.ltb_spec 0 lo); [lia|]. now rewrite Hf.
  - destruct (Nat.ltb_spec (S n) lo); [lia|]. now rewrite Hf.
Qed.

(** One item of the pattern consumed by a stretch [a] of its class that
    is as long as the repetition allows or is followed by a character
    outside the class. *)
Lemma match_here_step (it : Regex.item) (rest : list Regex.item)
    (a tail : string) (gs : list string) :
  all_chars (Regex.cls it) a = true ->
  (Regex.rep_min it <= String.length a)%nat ->
  Regex.rep_max it = Some (String.length a) \/
  ((match Regex.rep_max it with
    | Some k => (String.length a <= k)%nat
    | None => True
    end) /\
   match tail with
   | String c _ => Regex.cls it c = false
   | EmptyString => True
   end) ->
  Regex.match_here rest tail = Some gs ->
  Regex.match_here (it :: rest) (a ++ tail)
  = Some (if Regex.group it then a :: gs else gs).
Proof.
  intros Ha Hmin Hcap Hrest. cbn [Regex.match_here].
  rewrite (run_exact _ _ _ _ Ha Hcap).
  apply first_down_hit; [exact Hmin|].
  now rewrite drop_app, Hrest, take_app.
Qed.

Lemma sep_not_digit (c : ascii) : is_sep c = true -> is_digit c = false.
Proof.
  destruct c as [[] [] [] [] [] [] [] []]; try discriminate; reflexivity.
Qed.

Lemma sep_not_month_char (c : ascii) :
  is_sep c = true -> is_month_char c = false.
Proof.
  destruct c as [[] [] [] [] [] [] [] []]; try discriminate; reflexivity.
Qed.

Lemma month_char_not_sep (c : ascii) :
  is_month_char c = true -> is_sep c = false.
Proof.
  destruct c as [[] [] [] [] [] [] [] []]; try discriminate; reflexivity.
Qed.

Lemma digit_not_sep (c : ascii) : is_digit c = true -> is_sep c = false.
Proof.
  destruct c as [[] [] [] [] [] [] [] []]; try discriminate; reflexivity.
Qed.

Lemma head_class (p : ascii -> bool) (a tail : string) :
  a <> EmptyString -> all_chars p a = true ->
  exists c r, (a ++ tail)%string = String c r /\ p c = true.
Proof.
  destruct a as [|c r]; [congruence|]. simpl. intros _ H.
  apply andb_prop in H as [Hc _]. eauto.
Qed.

(** The pattern on day, separator, month token, separator, year. *)
Lemma date_regex_on_shape (d m y : string) (s1 s2 : ascii) :
  all_chars is_digit d = true -> (1 <= String.length d <= 2)%nat ->
  all_chars is_month_char m = true -> (1 <= String.length m)%nat ->
  all_chars is_digit y = true -> (2 <= String.length y <= 4)%nat ->
  is_sep s1 = true -> is_sep s2 = true ->
  Regex.search DATE_REGEX (d ++ String s1 (m ++ String s2 y))
  = Some [d; m; y].
Proof.
  intros Dd Ld Dm Lm Dy Ly S1 S2.
  assert (H5 : Regex.match_here [Regex.Item is_digit 2 (Some 4%nat) true] y
               = Some [y]).
  { rewrite <- (append_empty_r y) at 1.
    apply (match_here_step (Regex.Item is_digit 2 (Some 4%nat) true) [] y
             EmptyString []); cbn; auto; lia. }
  assert (H4 : Regex.match_here
                 [Regex.Item is_sep 1 (Some 1%nat) false;
                  Regex.Item is_digit 2 (Some 4%nat) true] (String s2 y)
               = Some [y]).
  { apply (match_here_step (Regex.Item is_sep 1 (Some 1%nat) false) _
             (String s2 EmptyString) y [y]); cbn; auto.
    now rewrite S2. }
  assert (H3 : Regex.match_here
                 [Regex.Item is_month_char 1 None true;
                  Regex.Item is_sep 1 (Some 1%nat) false;
                  Regex.Item is_digit 2 (Some 4%nat) true] (m ++ String s2 y)
               = Some [m; y]).
  { apply (match_here_step (Regex.Item is_month_char 1 None true) _ m
             (String s2 y) [y]); cbn; auto.
    right. split; [exact I | now apply sep_not_month_char]. }
  assert (H2 : Regex.match_here
                 [Regex.Item is_sep 1 (Some 1%nat) false;
                  Regex.Item is_month_char 1 None true;
                  Regex.Item is_sep 1 (Some 1%nat) false;
                  Regex.Item is_digit 2 (Some 4%nat) true]
                 (String s1 (m ++ String s2 y))
               = Some [m; y]).
  { apply (match_here_step (Regex.Item is_sep 1 (Some 1%nat) false) _
             (String s1 EmptyString) (m ++ String s2 y) [m; y]); cbn; auto.
    now rewrite S1. }
  assert (H1 : Regex.match_here DATE_REGEX (d ++ String s1 (m ++ String s2 y))
               = Some [d; m; y]).
  { apply (match_here_step (Regex.Item is_digit 1 (Some 2%nat) true) _ d
             (String s1 (m ++ String s2 y)) [m; y]); cbn; auto; try lia.
    right. split; [lia | now apply sep_not_digit]. }
  destruct (d ++ String s1 (m ++ String s2 y))%string eqn:E; simpl;
    simpl in H1; now rewrite H1.
Qed.

(** *** Reading back a written date *)

Lemma code_inj (a b : ascii) : code a = code b -> a = b.
Proof.
  unfold code. intros H. apply N2Z.inj in H.
  rewrite <- (ascii_N_embedding a), <- (ascii_N_embedding b). now f_equal.
Qed.

Lemma codes_inj (a b : string) : codes a = codes b -> a = b.
Proof.
  unfold codes. revert b. induction a as [|c r IH]; intros [|c' r']; simpl;
    try discriminate; [reflexivity|].
  intros [= Hc Hr]. apply code_inj in Hc. apply IH in Hr. now subst.
Qed.

Lemma zfill2_table :
  forallb
    (fun k =>
       let n := Z.of_nat k in
       match int_of_str (zfill 2 n) with
       | Ok v => v =? n
       | Raise _ => false
       end && all_chars is_digit (zfill 2 n) &&
       (String.length (zfill 2 n) =? 2)%nat)
    (seq 0 (Z.to_nat 100)) = true.
Proof. vm_compute. reflexivity. Qed.

Lemma zfill4_table :
  forallb
    (fun k =>
       let n := Z.of_nat k in
       match int_of_str (zfill 4 n) with
       | Ok v => v =? n
       | Raise _ => false
       end && all_chars is_digit (zfill 4 n) &&
       (String.length (zfill 4 n) =? 4)%nat)
    (seq 0 (Z.to_nat 10000)) = true.
Proof. vm_compute. reflexivity. Qed.

Lemma zfill_reads_back (w : nat) (bound : Z) (n : Z) :
  forallb
    (fun k =>
       let n := Z.of_nat k in
       match int_of_str (zfill w n) with
       | Ok v => v =? n
       | Raise _ => false
       end && all_chars is_digit (zfill w n) &&
       (String.length (zfill w n) =? w)%nat)
    (seq 0 (Z.to_nat bound)) = true ->
  0 <= n < bound ->
  int_of_str (zfill w n) = Ok n /\ all_chars is_digit (zfill w n) = true /\
  String.length (zfill w n) = w.
Proof.
  intros T Hn. rewrite forallb_forall in T.
  specialize (T (Z.to_nat n)). rewrite Z2Nat.id in T by lia.
  assert (Hin : In (Z.to_nat n) (seq 0 (Z.to_nat bound)))
    by (apply in_seq; lia).
  apply T in Hin. cbv zeta in Hin.
  apply andb_prop in Hin as [Hin Hl]. apply andb_prop in Hin as [Hv Hd].
  apply Nat.eqb_eq in Hl.
  destruct (int_of_str (zfill w n)) as [v|e]; [|discriminate].
  apply Z.eqb_eq in Hv. subst. auto.
Qed.

Lemma truthy_app (a t : string) :
  a <> EmptyString -> truthy (Some (a ++ t)%string) = true.
Proof. destruct a; [congruence | reflexivity]. Qed.

(** The abbreviations of the table are month tokens of the pattern and
    are found again under their own key. *)
Lemma month_abbreviation (abbr : string) (mo : Z) :
  In (codes abbr, mo) SPANISH_MONTHS ->
  all_chars is_month_char abbr = true /\ (1 <= String.length abbr)%nat /\
  (mo =? 0) = false /\
  dict_get SPANISH_MONTHS
    (replace_code 218 [85] (replace_code 211 [79] (replace_code 205 [73]
       (replace_code 201 [69] (replace_code 193 [65]
          (upper (replace_char "." "" (strip abbr)))))))) = Some mo.
Proof.
  unfold SPANISH_MONTHS. cbn [In]. intros H.
  repeat match type of H with
         | _ \/ _ => destruct H as [H|H]
         end;
    try contradiction;
    injection H as Hk <-; apply codes_inj in Hk; subst abbr;
    vm_compute; repeat split; (reflexivity || lia).
Qed.

(** X6.  A date written as two-digit day, separator, an abbreviation of
    [SPANISH_MONTHS], separator and four-digit year, with either separator
    of the pattern, is read back by [extract_date] as that date, for every
    valid date from year 100 on. *)
Theorem extract_date_round_trip (x : date) (abbr : string) (s1 s2 : ascii) :
  valid_date x = true -> 100 <= Calendar.year x ->
  In (codes abbr, Calendar.month x) SPANISH_MONTHS ->
  is_sep s1 = true -> is_sep s2 = true ->
  extract_date
    (zfill 2 (Calendar.day x) ++
     String s1 (abbr ++ String s2 (zfill 4 (Calendar.year x))))%string
  = Ok (Some x).
Proof.
  destruct x as [y m d]. cbn [Calendar.year Calendar.month Calendar.day].
  intros V Hy Hin S1 S2. pose proof V as V'.
  apply valid_ymd_iff in V' as ((_ & Hmax) & _ & Hd1 & Hd2).
  cbn [Calendar.year Calendar.month Calendar.day] in *.
  unfold MAXYEAR in Hmax. pose proof (month_length_bounds y m) as Hl.
  destruct (zfill_reads_back 2 100 d zfill2_table ltac:(lia)) as (Id & Dd & Ld).
  destruct (zfill_reads_back 4 10000 y zfill4_table ltac:(lia)) as (Iy & Dy & Ly).
  destruct (month_abbreviation abbr m Hin) as (Dm & Lm & Hm0 & Hk).
  unfold extract_date.
  rewrite truthy_app by (apply nonempty_length; lia). cbn [negb].
  rewrite date_regex_on_shape by (auto; lia).
  rewrite Id. cbn [bind]. rewrite Hk, Hm0, Iy. cbn [bind].
  destruct (Z.ltb_spec y 100); [lia|].
  unfold valid_date in V.
  cbn [Calendar.year Calendar.month Calendar.day] in V.
  rewrite (date_new_valid _ _ _ V). reflexivity.
Qed.

Lemma extract_date_round_trip_witness :
  valid_date (Date 2024 3 15) = true /\
  extract_date "15/MAR/2024" = Ok (Some (Date 2024 3 15)).
Proof.
  split; [reflexivity|].
  apply (extract_date_round_trip (Date 2024 3 15) "MAR" "/" "/");
    try reflexivity; [cbn; lia | vm_compute; auto 10].
Defined.

(** *** More on month arithmetic *)

(** X7.  For a valid date and any integer number of months, negative ones
    included, [add_months] returns the destination month with the day
    clamped when the destination year is in 1..9999, raises [ValueError]
    when that year lies outside 1..9999 but fits a C [int], and raises
    [OverflowError] when it does not fit; a day up to the 28th is kept as
    it is. *)
Theorem add_months_any_months (d : date) (months : Z) :
  valid_date d = true ->
  let idx := Calendar.month d - 1 + months in
  let y := Calendar.year d + idx / 12 in
  let m := idx mod 12 + 1 in
  (MINYEAR <= y <= MAXYEAR ->
   add_months d months
   = Ok (Date y m (Z.min (Calendar.day d) (month_length y m)))) /\
  (~ MINYEAR <= y <= MAXYEAR -> INT_MIN <= y <= INT_MAX ->
   add_months d months = builtin_error ValueError) /\
  (~ INT_MIN <= y <= INT_MAX ->
   add_months d months = builtin_error OverflowError) /\
  (Calendar.day d <= 28 -> Z.min (Calendar.day d) (month_length y m) = Calendar.day d).
Proof.
  intros V idx y m.
  destruct (add_months_outcome d months V) as (Hm & E & _).
  fold idx in E. fold y in E. fold m in E.
  pose proof (month_length_bounds y m) as Hl. rewrite E.
  unfold fits_int. clearbody y m.
  split; [|split; [|split]].
  - intros [H1 H2]. apply Z.leb_le in H1, H2. now rewrite H1, H2.
  - intros Hn [H1 H2].
    destruct (Z.leb_spec MINYEAR y), (Z.leb_spec y MAXYEAR); cbn [andb];
      try tauto;
      apply Z.leb_le in H1, H2; now rewrite H1, H2.
  - intros Hn.
    assert (Hy : (MINYEAR <=? y) && (y <=? MAXYEAR) = false).
    { apply andb_false_iff.
      destruct (Z.leb_spec MINYEAR y), (Z.leb_spec y MAXYEAR); auto.
      exfalso. apply Hn. unfold MINYEAR, MAXYEAR, INT_MIN, INT_MAX in *.
      change (- 2 ^ 31) with (- 2147483648).
      change (2 ^ 31 - 1) with 2147483647. lia. }
    rewrite Hy.
    destruct (Z.leb_spec INT_MIN y), (Z.leb_spec y INT_MAX); cbn [andb];
      try reflexivity. tauto.
  - lia.
Qed.

Lemma add_months_any_months_witness :
  valid_date (Date 2024 3 31) = true /\
  add_months (Date 2024 3 31) (-1) = Ok (Date 2024 2 29) /\
  add_months (Date 1 1 15) (-1) = builtin_error ValueError /\
  add_months (Date 2024 1 10) 100000000000 = builtin_error OverflowError.
Proof.
  split; [reflexivity|]. split; [|split].
  - apply (add_months_any_months (Date 2024 3 31) (-1) eq_refl). cbn.
    unfold MINYEAR, MAXYEAR. lia.
  - apply (add_months_any_months (Date 1 1 15) (-1) eq_refl); cbn;
      unfold MINYEAR, MAXYEAR, INT_MIN, INT_MAX; lia.
  - apply (add_months_any_months (Date 2024 1 10) 100000000000 eq_refl); cbn;
      unfold INT_MIN, INT_MAX; lia.
Defined.

(** X8.  A projected date never precedes its base: for a valid date,
    [add_months] with a positive number of months returns, when it returns,
    a date strictly after the base date, and with zero months the base date
    itself. *)
Theorem add_months_later (d r : date) (months : Z) :
  valid_date d = true -> 0 <= months ->
  add_months d months = Ok r ->
  (0 < months -> date_compare d r = Lt) /\ (months = 0 -> r = d).
Proof.
  intros V Hm. pose proof V as V'.
  apply valid_ymd_iff in V' as (Hy & Hmo & Hd).
  rewrite add_months_eq.
  set (idx := Calendar.month d - 1 + months).
  pose proof (Z.mod_pos_bound idx 12 ltac:(lia)) as Hr.
  pose proof (Z.div_mod idx 12 ltac:(lia)) as Hq.
  assert (Hq0 : 0 <= idx / 12) by (apply Z.div_pos; unfold idx; lia).
  intros E.
  match type of E with date_new ?a ?b ?c = _ =>
    destruct (date_new_cases a b c) as [[E' _] | [[E' _] | [E' _]]];
      rewrite E' in E; [|discriminate ..] end.
  injection E as <-. split.
  - intros Hpos. unfold date_compare. cbn [Calendar.year Calendar.month Calendar.day].
    destruct (Z.compare_spec (Calendar.year d) (Calendar.year d + idx / 12))
      as [Hc|Hc|Hc]; [|reflexivity | lia].
    assert (idx / 12 = 0) by lia.
    destruct (Z.compare_spec (Calendar.month d) (idx mod 12 + 1))
      as [Hc'|Hc'|Hc']; [| reflexivity |]; unfold idx in *; lia.
  - intros ->. destruct d as [y m dd].
    cbn [Calendar.year Calendar.month Calendar.day] in *.
    unfold idx. replace (m - 1 + 0) with (m - 1) by lia.
    rewrite Z.div_small, Z.mod_small by lia.
    replace (y + 0) with y by lia. replace (m - 1 + 1) with m by lia.
    f_equal. lia.
Qed.

Lemma add_months_later_witness :
  valid_date (Date 2024 1 31) = true /\ 0 <= 1 /\
  date_compare (Date 2024 1 31) (Date 2024 2 29) = Lt.
Proof.
  split; [reflexivity|]. split; [lia|].
  apply (add_months_later (Date 2024 1 31) (Date 2024 2 29) 1 eq_refl);
    [lia | reflexivity | lia].
Defined.

(** *** What the event builder returns *)

Lemma cell_of_fields (r : row) (cod : string) (req : option string)
    (freq : option Z) (idx : nat) (per lbl : string) (y : Z)
    (e : CalibrationEvent) :
  Spec.cell_of r cod req freq (idx, per, lbl, y) = Some e ->
  exists d celda,
    extract_date celda = Ok (Some d) /\
    e = Event cod d per lbl y req freq.
Proof.
  unfold Spec.cell_of.
  destruct (nth_error r idx); [|discriminate].
  destruct (normalize_text _) as [celda|]; [|discriminate].
  destruct (extract_date celda) as [[d|]|] eqn:E; try discriminate.
  intros [= <-]. eauto.
Qed.

Lemma row_new_in (pcs : list period_column) (r : row)
    (new : list CalibrationEvent) (e : CalibrationEvent) :
  Spec.row_new pcs r = Ok new -> In e new ->
  exists cod freq pc,
    normalize_text (nth_error r 4) = Some cod /\ In pc pcs /\
    Spec.cell_of r cod (normalize_text (nth_error r 7)) freq pc = Some e.
Proof.
  unfold Spec.row_new.
  destruct (negb _); [intros [= <-] []|].
  destruct (_ <? _)%nat; [intros [= <-] []|].
  destruct (normalize_text (nth_error r 4)) as [cod|]; [|intros [= <-] []].
  destruct (parse_frecuencia _) as [freq|]; [|discriminate].
  cbn [bind]. intros [= <-] Hin.
  apply in_flat_map in Hin as (pc & Hpc & He).
  destruct (Spec.cell_of r cod _ freq pc) as [e'|] eqn:E; simpl in He;
    [|contradiction].
  destruct He as [<-|[]]. eauto 10.
Qed.

Lemma rows_new_in (pcs : list period_column) (rows : list row)
    (new : list CalibrationEvent) (e : CalibrationEvent) :
  Spec.rows_new pcs rows = Ok new -> In e new ->
  exists r, In r rows /\ exists a, Spec.row_new pcs r = Ok a /\ In e a.
Proof.
  revert new. induction rows as [|r rest IH]; intros new; simpl.
  - intros [= <-] [].
  - destruct (Spec.row_new pcs r) as [a|] eqn:Ea; [|discriminate].
    cbn [bind].
    destruct (Spec.rows_new pcs rest) as [b|] eqn:Eb; [|discriminate].
    cbn [bind]. intros [= <-] Hin. apply in_app_or in Hin as [Hin|Hin].
    + exists r. eauto.
    + destruct (IH b eq_refl Hin) as (r' & Hr & H). exists r'. auto.
Qed.

(** A successful call found both header rows and sorted what the data
    rows gave. *)
Lemma iter_events_inv (fs : csv_files) (csv_path : string) (empresa_id : Z)
    (l : list CalibrationEvent) :
  iter_events fs csv_path empresa_id = Ok l ->
  exists reader rest data year_row header_row new,
    fs csv_path = Some reader /\
    _next_relevant_row reader = Ok (year_row, rest) /\
    _next_relevant_row rest = Ok (header_row, data) /\
    Spec.rows_new (Spec.columns_from year_row 0 header_row) data = Ok new /\
    l = sorted_events new.
Proof.
  intros H. destruct (fs csv_path) as [reader|] eqn:F.
  2:{ unfold iter_events in H. rewrite F in H. discriminate. }
  destruct (_next_relevant_row reader) as [[yr rest]|e1] eqn:E1.
  2:{ unfold iter_events in H. rewrite F, E1 in H. cbn in H.
      destruct (exn_class_eqb _ _); discriminate. }
  destruct (_next_relevant_row rest) as [[hr data]|e2] eqn:E2.
  2:{ unfold iter_events in H. rewrite F, E1 in H. cbn [bind snd] in H.
      rewrite E2 in H. cbn in H. destruct (exn_class_eqb _ _); discriminate. }
  rewrite (iter_events_eq _ _ _ _ _ _ _ _ F E1 E2) in H.
  destruct (Spec.rows_new _ data) as [new|] eqn:E; [|discriminate].
  injection H as <-. exists reader, rest, data, yr, hr, new. auto.
Qed.

(** X9.  Every event [iter_events] returns has a code that is non-empty,
    trimmed and not a sentinel; a date that exists in the calendar, from
    year 100 on; a period code among P1, P2 and EXTRA, which is the code of
    its upper-cased period label; and a requirement that is absent or
    non-empty and not a sentinel. *)
Theorem iter_events_wellformed (fs : csv_files) (csv_path : string)
    (empresa_id : Z) (l : list CalibrationEvent) :
  iter_events fs csv_path empresa_id = Ok l ->
  Forall
    (fun e =>
       codigo e <> EmptyString /\ strip (codigo e) = codigo e /\
       ~ In (codigo e) NA_VALUES /\
       valid_date (fecha e) = true /\ 100 <= Calendar.year (fecha e) /\
       In (periodo e) ["P1"; "P2"; "EXTRA"] /\
       dict_get PERIOD_MAP (upper (periodo_label e)) = Some (periodo e) /\
       forall v, requerimiento e = Some v ->
                 v <> EmptyString /\ ~ In v NA_VALUES)
    l.
Proof.
  intros H.
  destruct (iter_events_inv _ _ _ _ H)
    as (reader & rest & data & yr & hr & new & _ & _ & _ & Hn & ->).
  eapply Permutation_Forall; [apply sorted_events_perm|].
  apply Forall_forall. intros e He.
  destruct (rows_new_in _ _ _ _ Hn He) as (r & _ & a & Ha & Hea).
  destruct (row_new_in _ _ _ _ Ha Hea) as (cod & freq & pc & Hcod & Hpc & Hc).
  destruct pc as [[[idx per] lbl] y].
  apply in_columns_from in Hpc as (j & label & _ & Hcol).
  apply column_of_some in Hcol as (_ & _ & -> & Hk & _).
  destruct (cell_of_fields _ _ _ _ _ _ _ _ _ Hc) as (d & celda & Hd & ->).
  cbn [codigo fecha periodo periodo_label requerimiento].
  destruct (normalize_text_facts _ _ Hcod) as (C1 & C2 & C3 & _).
  destruct (extract_date_ok celda) as (f & Hf & Hv). rewrite Hd in Hf.
  injection Hf as <-.
  destruct (extract_date_years _ _ Hd)
    as (g1 & g2 & g3 & yv & _ & _ & _ & _ & _ & [Hy _]).
  assert (Hper : In per ["P1"; "P2"; "EXTRA"]).
  { apply period_map_get in Hk as [[_ ->]|[[_ ->]|[_ ->]]]; simpl; auto. }
  assert (Hreq : forall v, normalize_text (nth_error r 7) = Some v ->
                           v <> EmptyString /\ ~ In v NA_VALUES).
  { intros v Hreq. destruct (normalize_text_facts _ _ Hreq) as (R1 & R2 & _).
    auto. }
  auto 10.
Qed.

Lemma iter_events_wellformed_witness :
  let sheet :=
    [ Sample.year_row; Sample.header_row;
      Sample.data_row " BAL-001 " "NA" "12" ["10-ENE-24"; ""] ] in
  let ev := Event "BAL-001" (Date 2024 1 10) "P1" "PERIODO 1" 2024 None (Some 12) in
  iter_events (Sample.two_files sheet []) "a.csv" 1 = Ok [ev] /\
  codigo ev <> EmptyString /\ valid_date (fecha ev) = true.
Proof.
  intros sheet ev.
  assert (E : iter_events (Sample.two_files sheet []) "a.csv" 1 = Ok [ev])
    by reflexivity.
  split; [exact E|].
  pose proof (iter_events_wellformed _ _ _ _ E) as H.
  apply Forall_inv in H. tauto.
Defined.

(** *** Rows that do not count *)

Lemma truthy_normalize_none (o : option string) :
  truthy (normalize_text o) = false -> normalize_text o = None.
Proof.
  destruct (normalize_text o) as [v|] eqn:E; [|reflexivity].
  destruct (normalize_text_facts _ _ E) as (Hne & _).
  destruct v; [congruence | discriminate].
Qed.

Lemma row_new_unusable (pcs : list period_column) (r : row) :
  Shape.usable_row r = false -> Spec.row_new pcs r = Ok [].
Proof.
  unfold Shape.usable_row, Spec.row_new. intros H.
  destruct (negb _); [reflexivity|].
  destruct (Nat.ltb_spec (List.length r) base_columns) as [Hlt|Hge];
    [reflexivity|].
  apply andb_false_iff in H as [H|H].
  - apply Nat.leb_gt in H. lia.
  - now rewrite (truthy_normalize_none _ H).
Qed.

Lemma rows_new_filter (pcs : list period_column) (rows : list row) :
  Spec.rows_new pcs (filter Shape.usable_row rows) = Spec.rows_new pcs rows.
Proof.
  induction rows as [|r rest IH]; [reflexivity|].
  cbn [filter Spec.rows_new]. destruct (Shape.usable_row r) eqn:U.
  - cbn [Spec.rows_new]. now rewrite IH.
  - rewrite IH, (row_new_unusable pcs r U). cbn [bind app].
    now destruct (Spec.rows_new pcs rest).
Qed.

(** X10.  Only data rows with at least nine cells and a code that is not
    a sentinel count: removing every other data row (blank rows, short
    rows, rows whose code cell is blank or a sentinel, whatever their other
    cells hold) leaves the outcome of [iter_events] unchanged. *)
Theorem iter_events_ignores_unusable_rows (fs : csv_files) (p1 p2 : string)
    (empresa_id : Z) (f1 f2 rest1 rest2 data : list row)
    (year_row header_row : row) :
  fs p1 = Some f1 -> fs p2 = Some f2 ->
  _next_relevant_row f1 = Ok (year_row, rest1) ->
  _next_relevant_row rest1 = Ok (header_row, data) ->
  _next_relevant_row f2 = Ok (year_row, rest2) ->
  _next_relevant_row rest2 = Ok (header_row, filter Shape.usable_row data) ->
  iter_events fs p1 empresa_id = iter_events fs p2 empresa_id.
Proof.
  intros F1 F2 A1 B1 A2 B2.
  rewrite (iter_events_eq _ _ _ _ _ _ _ _ F1 A1 B1).
  rewrite (iter_events_eq _ _ _ _ _ _ _ _ F2 A2 B2).
  now rewrite rows_new_filter.
Qed.

Lemma iter_events_ignores_unusable_rows_witness :
  let good := Sample.data_row "BAL-001" "" "12" ["10-ENE-24"; ""] in
  let data :=
    [ Sample.blanks 11; ["x"; "y"]; good;
      Sample.data_row "N/A" "" "inf" ["10-ENE-24"; ""] ] in
  let hdr := [Sample.year_row; Sample.header_row] in
  let fs := Sample.two_files (hdr ++ data) (hdr ++ [good]) in
  filter Shape.usable_row data = [good] /\
  iter_events fs "a.csv" 1 = iter_events fs "b.csv" 1.
Proof.
  intros good data hdr fs. split; [reflexivity|].
  apply (iter_events_ignores_unusable_rows fs "a.csv" "b.csv" 1
           (hdr ++ data) (hdr ++ [good])
           (Sample.header_row :: data) (Sample.header_row :: [good])
           data Sample.year_row Sample.header_row); reflexivity.
Defined.

(** *** How many events *)

Lemma columns_from_length (year_row header_row : row) (idx : nat) :
  (List.length (Spec.columns_from year_row idx header_row)
   <= List.length header_row - (base_columns - idx))%nat.
Proof.
  revert idx.
  induction header_row as [|label rest IH]; intros idx;
    cbn [Spec.columns_from List.length]; [lia|].
  rewrite length_app. specialize (IH (S idx)).
  assert (Hc : (List.length (Spec.opt_list (Spec.column_of year_row idx label))
                <= if (idx <? base_columns)%nat then 0 else 1)%nat).
  { unfold Spec.column_of. destruct (idx <? base_columns)%nat; [simpl; lia|].
    destruct (nth_error year_row idx) as [yc|]; [|simpl; lia].
    destruct (int_of_str (strip yc)); [|simpl; lia].
    destruct (dict_get PERIOD_MAP _); simpl; lia. }
  unfold base_columns in *.
  destruct (Nat.ltb_spec idx 9); lia.
Qed.

Lemma row_new_length (pcs : list period_column) (r : row)
    (new : list CalibrationEvent) :
  Spec.row_new pcs r = Ok new ->
  (List.length new <= (if Shape.usable_row r then List.length pcs else 0))%nat.
Proof.
  destruct (Shape.usable_row r) eqn:U.
  - unfold Spec.row_new.
    destruct (negb _); [intros [= <-]; simpl; lia|].
    destruct (_ <? _)%nat; [intros [= <-]; simpl; lia|].
    destruct (normalize_text (nth_error r 4)) as [cod|];
      [|intros [= <-]; simpl; lia].
    destruct (parse_frecuencia _) as [freq|]; [|discriminate].
    cbn [bind]. intros [= <-].
    induction pcs as [|pc pcs IH]; simpl; [lia|].
    rewrite length_app.
    destruct (Spec.cell_of r cod _ freq pc); simpl; lia.
  - rewrite (row_new_unusable pcs r U). intros [= <-]. simpl. lia.
Qed.

Lemma rows_new_length (pcs : list period_column) (rows : list row)
    (new : list CalibrationEvent) :
  Spec.rows_new pcs rows = Ok new ->
  (List.length new
   <= List.length (filter Shape.usable_row rows) * List.length pcs)%nat.
Proof.
  revert new. induction rows as [|r rest IH]; intros new; simpl.
  - intros [= <-]. simpl. lia.
  - destruct (Spec.row_new pcs r) as [a|] eqn:Ea; [|discriminate].
    cbn [bind].
    destruct (Spec.rows_new pcs rest) as [b|] eqn:Eb; [|discriminate].
    cbn [bind]. intros [= <-]. rewrite length_app.
    pose proof (row_new_length _ _ _ Ea) as Ha. specialize (IH b eq_refl).
    destruct (Shape.usable_row r); simpl; lia.
Qed.

(** X11.  [iter_events] returns at most one event per usable data row and
    header column past the ninth: with [n] data rows of at least nine
    cells and a code, under a label row of [9 + k] cells, there are at most
    [n * k] events, and none when the label row has nine cells or fewer. *)
Theorem iter_events_count (fs : csv_files) (csv_path : string)
    (empresa_id : Z) (reader rest data : list row) (year_row header_row : row)
    (l : list CalibrationEvent) :
  fs csv_path = Some reader ->
  _next_relevant_row reader = Ok (year_row, rest) ->
  _next_relevant_row rest = Ok (header_row, data) ->
  iter_events fs csv_path empresa_id = Ok l ->
  (List.length l
   <= List.length (filter Shape.usable_row data) *
      (List.length header_row - base_columns))%nat.
Proof.
  intros F E1 E2 H. rewrite (iter_events_eq _ _ _ _ _ _ _ _ F E1 E2) in H.
  destruct (Spec.rows_new _ data) as [new|] eqn:E; [|discriminate].
  injection H as <-.
  rewrite <- (Permutation_length (sorted_events_perm new)).
  pose proof (rows_new_length _ _ _ E) as Hn.
  pose proof (columns_from_length year_row header_row 0) as Hc.
  rewrite Nat.sub_0_r in Hc. nia.
Qed.

Lemma iter_events_count_witness :
  let sheet :=
    [ Sample.year_row; Sample.header_row;
      Sample.data_row "BAL-001" "" "12" ["10-ENE-24"; "11-JUL-24"];
      Sample.data_row "BAL-002" "" "12" ["10-ENE-24"; ""] ] in
  exists l,
    iter_events (Sample.two_files sheet []) "a.csv" 1 = Ok l /\
    (List.length l <= 2 * 2)%nat.
Proof.
  intros sheet. eexists. split; [reflexivity|].
  apply (iter_events_count (Sample.two_files sheet []) "a.csv" 1 sheet
           (tl sheet) (tl (tl sheet)) Sample.year_row Sample.header_row);
    reflexivity.
Defined.

(** *** The whole script *)



(** *** Whole-number frequencies *)

Lemma round_half_even_unit (n : Z) : round_half_even n 1 = n.
Proof.
  unfold round_half_even. rewrite Z.div_1_r, Z.mod_1_r. reflexivity.
Qed.

(** An integer below [2^53] is a float, and comes back from it. *)
Lemma int_of_float_exact (v : Z) :
  0 <= v < 2 ^ 53 -> int_of_float (round_binary64 false v 1) = Ok v.
Proof.
  intros Hv. unfold round_binary64.
  destruct (Z.eqb_spec v 0) as [->|Hnz]; [reflexivity|].
  assert (Hl : floor_log2_ratio v 1 = Z.log2 v).
  { unfold floor_log2_ratio. change (Z.log2 1) with 0. rewrite Z.sub_0_r.
    pose proof (Z.log2_nonneg v) as H0.
    destruct (Z.leb_spec 0 (Z.log2 v)); [|lia].
    pose proof (Z.log2_spec v ltac:(lia)) as [H1 _].
    rewrite Z.mul_1_l. destruct (Z.leb_spec (2 ^ Z.log2 v) v); [reflexivity | lia]. }
  rewrite Hl.
  assert (Hlog : 0 <= Z.log2 v < 53).
  { split; [apply Z.log2_nonneg|]. apply Z.log2_lt_pow2; lia. }
  set (ex := Z.max (Z.log2 v - 52) (-1074)).
  assert (Hex : -52 <= ex <= 0) by (unfold ex; lia).
  assert (Hm : (if 0 <=? ex then round_half_even v (1 * 2 ^ ex)
                else round_half_even (v * 2 ^ (- ex)) 1) = v * 2 ^ (- ex)).
  { destruct (Z.leb_spec 0 ex).
    - assert (ex = 0) as -> by lia. cbn [Z.opp].
      rewrite Z.pow_0_r, !Z.mul_1_r. apply round_half_even_unit.
    - apply round_half_even_unit. }
  rewrite Hm. replace (Z.max ex 0) with 0 by lia. rewrite Z.pow_0_r, Z.mul_1_r.
  assert (Hp : 0 < 2 ^ (- ex)) by (apply Z.pow_pos_nonneg; lia).
  assert (Hb : v * 2 ^ (- ex) < 2 ^ 1024).
  { apply Z.lt_le_trans with (2 ^ 53 * 2 ^ 52).
    - apply Z.lt_le_trans with (2 ^ 53 * 2 ^ (- ex)).
      + apply Z.mul_lt_mono_pos_r; lia.
      + apply Z.mul_le_mono_nonneg_l; [lia|].
        apply Z.pow_le_mono_r; lia.
    - rewrite <- Z.pow_add_r by lia. apply Z.pow_le_mono_r; lia. }
  destruct (Z.leb_spec (2 ^ 1024) (v * 2 ^ (- ex))); [lia|].
  unfold int_of_float, signed. f_equal.
  destruct (Z.leb_spec 0 ex).
  - assert (ex = 0) as -> by lia. cbn [Z.opp]. rewrite !Z.pow_0_r. lia.
  - apply Z.div_mul. lia.
Qed.

Lemma span_digits_all (s : string) :
  all_chars is_digit s = true -> span_digits s = (s, EmptyString).
Proof.
  induction s as [|c r IH]; simpl; [reflexivity|].
  intros H. apply andb_prop in H as [Hc Hr]. rewrite Hc. cbn [orb].
  now rewrite (IH Hr).
Qed.

Lemma digits_not_keyword (s : string) :
  s <> EmptyString -> all_chars is_digit s = true ->
  (String.eqb (lower_ascii s) "inf" || String.eqb (lower_ascii s) "infinity")
  = false /\
  String.eqb (lower_ascii s) "nan" = false /\
  split_sign s = (false, s).
Proof.
  destruct s as [|c r]; [congruence|]. intros _ H. simpl in H.
  apply andb_prop in H as [Hc _].
  destruct c as [[] [] [] [] [] [] [] []]; try discriminate Hc;
    repeat split; reflexivity.
Qed.

(** X13.  A frequency cell written as a plain whole number below [2^53]
    keeps its value through [int(float(...))]: the frequency recorded is
    the integer the digits spell. *)
Theorem whole_frequency_is_kept (s : string) (v : Z) :
  s <> EmptyString -> all_chars is_digit s = true ->
  int_of_str s = Ok v -> v < 2 ^ 53 ->
  parse_frecuencia (normalize_text (Some s)) = Ok (Some v).
Proof.
  intros Hne Hd Hi Hv.
  pose proof (int_of_str_digits_nonneg s v Hne Hd Hi) as Hpos.
  assert (Hstrip : strip s = s)
    by (apply strip_no_space; eapply all_chars_impl;
        [apply digit_not_space | exact Hd]).
  assert (Hnorm : normalize_text (Some s) = Some s).
  { apply normalize_text_some. split; [now rewrite Hstrip|].
    rewrite Hstrip. exact (int_of_str_not_NA s v Hi). }
  pose proof (strip_num_digits s Hd) as Hnum.
  rewrite Hnorm. unfold parse_frecuencia.
  assert (Ht : truthy (Some s) = true) by (destruct s; [congruence | reflexivity]).
  rewrite Ht.
  destruct (digits_not_keyword s Hne Hd) as (K1 & K2 & K3).
  unfold int_of_str in Hi. rewrite Hnum, K3 in Hi.
  destruct (digitpart false 0 0 s) as [[w k]|] eqn:Edp; [|discriminate].
  destruct (MAX_STR_DIGITS <? k); [discriminate|].
  injection Hi as Hw. simpl in Hw. subst w.
  assert (Hf : float_of_str s = Ok (round_binary64 false v 1)).
  { unfold float_of_str. rewrite Hnum, K3, K1, K2.
    unfold floatnumber. rewrite (span_digits_all s Hd), Edp. cbn [exponent].
    cbn [Z.leb Z.compare]. now rewrite Z.pow_0_r, Z.mul_1_r. }
  rewrite Hf. cbn [bind]. rewrite int_of_float_exact by lia. reflexivity.
Qed.

Lemma whole_frequency_is_kept_witness :
  int_of_str "24" = Ok 24 /\ 24 < 2 ^ 53 /\
  parse_frecuencia (normalize_text (Some "24")) = Ok (Some 24).
Proof.
  split; [reflexivity|]. split; [reflexivity|].
  apply whole_frequency_is_kept; try reflexivity; discriminate.
Defined.

(** *** The modern date projection *)

Lemma prefix_iff (p s : string) :
  String.prefix p s = true <-> exists b, s = (p ++ b)%string.
Proof.
  revert s. induction p as [|c p IH]; intros s.
  - destruct s; simpl; split; eauto.
  - destruct s as [|c' s']; simpl.
    + split; [discriminate | intros [b Hb]; discriminate].
    + destruct (ascii_dec c c') as [->|Hn].
      * rewrite IH. split; intros [b Hb]; exists b; congruence.
      * split; [discriminate | intros [b Hb]; congruence].
Qed.

Lemma contains_iff (p s : string) :
  Modern.contains p s = true <-> exists a b, s = (a ++ p ++ b)%string.
Proof.
  induction s as [|c r IH]; cbn [Modern.contains].
  - rewrite orb_false_r, prefix_iff. split.
    + intros [b Hb]. exists EmptyString, b. exact Hb.
    + intros (a & b & H). destruct a; [eauto | discriminate].
  - rewrite orb_true_iff, prefix_iff, IH. split.
    + intros [[b Hb] | (a & b & Hr)].
      * exists EmptyString, b. exact Hb.
      * exists (String c a), b. simpl. now rewrite Hr.
    + intros (a & b & H). destruct a as [|c' a'].
      * left. eauto.
      * right. simpl in H. injection H as _ Hr. eauto.
Qed.

Lemma contains_part (p q t s : string) :
  Modern.contains (p ++ q ++ t) s = true -> Modern.contains q s = true.
Proof.
  rewrite !contains_iff. intros (a & b & ->).
  exists (a ++ p)%string, (t ++ b)%string. now rewrite !append_assoc.
Qed.

(** X14.  Three entries of the frequency table are never used: a type
    that names [balanza_analitica], [micropipeta] or [termometro_digital]
    also contains [balanza], [pipeta] or [termometro], which come earlier
    in the table, so it is scheduled at 12 months, like a plain
    [balanza], and not at the 6 months of its own entry. *)
Theorem shadowed_frequencies (last_calibration : date)
    (instrument_type : string) :
  let normalized_type := strip (Modern.lower instrument_type) in
  Modern.contains "balanza_analitica" normalized_type = true \/
  Modern.contains "micropipeta" normalized_type = true \/
  Modern.contains "termometro_digital" normalized_type = true ->
  Modern.frequency_for instrument_type = Some 12 /\
  Modern.calculate_next_calibration_date last_calibration instrument_type
  = Modern.calculate_next_calibration_date last_calibration "balanza".
Proof.
  intros N H.
  assert (F : Modern.frequency_for instrument_type = Some 12).
  { unfold Modern.frequency_for. fold N.
    unfold Modern.calibration_frequencies. cbn [Modern.first_pattern].
    destruct (Modern.contains "balanza" N) eqn:B; [reflexivity|].
    assert (BA : Modern.contains "balanza_analitica" N = false).
    { destruct (Modern.contains "balanza_analitica" N) eqn:E; [|reflexivity].
      apply (contains_part "" "balanza" "_analitica") in E. congruence. }
    rewrite BA.
    destruct (Modern.contains "pipeta" N) eqn:P; [reflexivity|].
    assert (MP : Modern.contains "micropipeta" N = false).
    { destruct (Modern.contains "micropipeta" N) eqn:E; [|reflexivity].
      apply (contains_part "micro" "pipeta" "") in E. congruence. }
    rewrite MP.
    destruct (Modern.contains "termometro" N) eqn:T; [reflexivity|].
    destruct H as [H|[H|H]]; [congruence | congruence |].
    apply (contains_part "" "termometro" "_digital") in H. congruence. }
  split; [exact F|].
  unfold Modern.calculate_next_calibration_date. rewrite F. reflexivity.
Qed.

Lemma shadowed_frequencies_witness :
  Modern.contains "micropipeta" (strip (Modern.lower " Micropipeta P200 ")) = true /\
  Modern.calculate_next_calibration_date (Date 2024 3 15) " Micropipeta P200 "
  = Ok (Date 2025 3 15).
Proof.
  split; [reflexivity|].
  destruct (shadowed_frequencies (Date 2024 3 15) " Micropipeta P200 "
              (or_intror (or_introl eq_refl))) as [_ ->].
  reflexivity.
Defined.

(** X15.  The two date projections of the script agree whenever the day
    of the base date exists in the destination month: if [add_months]
    answers, for the frequency of the instrument type, with a date on the
    same day of the month, [calculate_next_calibration_date] returns that
    very date. *)
Theorem projections_agree (last_calibration r : date)
    (instrument_type : string) (f : Z) :
  Modern.frequency_for instrument_type = Some f ->
  add_months last_calibration f = Ok r ->
  Calendar.day r = Calendar.day last_calibration ->
  Modern.calculate_next_calibration_date last_calibration instrument_type
  = Ok r.
Proof.
  intros F A D. unfold Modern.calculate_next_calibration_date. rewrite F.
  rewrite add_months_eq in A.
  replace (Calendar.month last_calibration + f - 1)
    with (Calendar.month last_calibration - 1 + f) by lia.
  match type of A with date_new ?y ?m ?d = _ =>
    destruct (date_new_cases y m d) as [[E V] | [[E _] | [E _]]];
      rewrite E in A; [|discriminate ..] end.
  injection A as <-. cbn [Calendar.day] in D. rewrite D in V.
  rewrite (date_new_valid _ _ _ V). cbn. now rewrite D.
Qed.

Lemma projections_agree_witness :
  Modern.frequency_for "autoclave" = Some 6 /\
  add_months (Date 2024 8 15) 6 = Ok (Date 2025 2 15) /\
  Modern.calculate_next_calibration_date (Date 2024 8 15) "autoclave"
  = Ok (Date 2025 2 15).
Proof.
  split; [reflexivity|]. split; [reflexivity|].
  apply (projections_agree (Date 2024 8 15) (Date 2025 2 15) "autoclave" 6);
    reflexivity.
Defined.

(** *** Certificate numbers of records read from a CSV *)

Lemma get_in {V : Type} (d : list (string * V)) (key : string) (v : V) :
  Modern.get d key = Some v -> In (key, v) d.
Proof.
  induction d as [|[k x] rest IH]; simpl; [discriminate|].
  destruct (String.eqb_spec k key) as [->|Hn].
  - intros [= ->]. now left.
  - intros H. right. now apply IH.
Qed.

(** X16.  A record whose values are all text, as [csv.DictReader] yields
    them, never gets a certificate number: without a [cliente_id] column
    the call raises [KeyError], and with one it raises [ValueError],
    because the number format [d] does not apply to text. *)
Theorem certificate_number_needs_integers (self_empresa_id today_year : Z)
    (timestamp : string) (instrument : list (string * Modern.pyval)) :
  (forall k v, In (k, v) instrument -> exists s, v = Modern.VStr s) ->
  Modern.generate_certificate_number self_empresa_id today_year timestamp
    instrument
  = match Modern.get instrument "cliente_id" with
    | None => builtin_error KeyError
    | Some _ => builtin_error ValueError
    end.
Proof.
  intros Htext. unfold Modern.generate_certificate_number.
  destruct (Modern.get instrument "cliente_id") as [c|] eqn:C;
    [|reflexivity].
  cbn [bind].
  destruct (Htext _ _ (get_in _ _ _ C)) as [s ->].
  destruct (Modern.get instrument "empresa_id") as [e|] eqn:E.
  - destruct (Htext _ _ (get_in _ _ _ E)) as [s' ->]. reflexivity.
  - reflexivity.
Qed.

Lemma certificate_number_needs_integers_witness :
  Modern.generate_certificate_number 1 2024 "03151030"
    [("instrumento_id", Modern.VStr "BAL-001"); ("cliente_id", Modern.VStr "5")]
  = builtin_error ValueError.
Proof.
  apply (certificate_number_needs_integers 1 2024 "03151030"
           [("instrumento_id", Modern.VStr "BAL-001");
            ("cliente_id", Modern.VStr "5")]).
  intros k v [H|[H|[]]]; injection H as _ <-; eauto.
Defined.

(** *** Text around a date *)

Lemma match_here_needs_digit (c : ascii) (r : string) :
  is_digit c = false -> Regex.match_here DATE_REGEX (String c r) = None.
Proof.
  intros H. unfold DATE_REGEX. cbn [Regex.match_here Regex.cls Regex.rep_max
    Regex.rep_min Regex.run]. now rewrite H.
Qed.

Lemma search_skips_non_digits (pre s : string) :
  all_chars (fun c => negb (is_digit c)) pre = true ->
  Regex.search DATE_REGEX (pre ++ s) = Regex.search DATE_REGEX s.
Proof.
  induction pre as [|c r IH]; [reflexivity|].
  cbn [all_chars]. intros H. apply andb_prop in H as [Hc Hr].
  apply negb_true_iff in Hc.
  cbn [append Regex.search]. rewrite (match_here_needs_digit c _ Hc).
  now apply IH.
Qed.

(** X19.  Text without digits in front of a cell's content does not
    change what [extract_date] reads from it. *)
Theorem extract_date_skips_leading_text (pre value : string) :
  all_chars (fun c => negb (is_digit c)) pre = true ->
  extract_date (pre ++ value) = extract_date value.
Proof.
  intros H. unfold extract_date.
  rewrite (search_skips_non_digits pre value H).
  destruct value as [|c r].
  - destruct (negb (truthy (Some (pre ++ EmptyString)%string))); reflexivity.
  - destruct pre; reflexivity.
Qed.

Lemma extract_date_skips_leading_text_witness :
  extract_date "Calibrado el: 15-MAR-24" = Ok (Some (Date 2024 3 15)).
Proof.
  exact (eq_trans
           (extract_date_skips_leading_text "Calibrado el: " "15-MAR-24" eq_refl)
           eq_refl).
Defined.

(** *** Adding months twice *)

(** X20.  For a base date on the 28th or earlier, adding months in two
    steps is adding their sum: if both steps return, [add_months] with the
    sum returns the same date.  (Later days can be clamped on the way:
    31 January plus one month twice is 29 March 2024.) *)
Theorem add_months_twice (d r1 r2 : date) (a b : Z) :
  valid_date d = true -> Calendar.day d <= 28 ->
  add_months d a = Ok r1 -> add_months r1 b = Ok r2 ->
  add_months d (a + b) = Ok r2.
Proof.
  intros V H28 A B. apply valid_ymd_iff in V as (Hy & Hmo & Hd).
  rewrite add_months_eq in A.
  match type of A with date_new ?y ?m ?dd = _ =>
    pose proof (month_length_bounds y m) as L1;
    destruct (date_new_cases y m dd) as [[E V1] | [[E _] | [E _]]];
      rewrite E in A; [|discriminate ..] end.
  injection A as <-. rewrite add_months_eq in B.
  cbn [Calendar.year Calendar.month Calendar.day] in B.
  match type of B with date_new ?y ?m ?dd = _ =>
    pose proof (month_length_bounds y m) as L2 end.
  rewrite add_months_eq.
  match goal with |- date_new ?y ?m ?dd = _ =>
    pose proof (month_length_bounds y m) as L3 end.
  rewrite <- B.
  set (i1 := Calendar.month d - 1 + a) in *.
  assert (Hi : Calendar.month d - 1 + (a + b) = i1 + b) by (unfold i1; lia).
  rewrite Hi in *.
  replace (i1 mod 12 + 1 - 1 + b) with (i1 mod 12 + b) in * by lia.
  assert (Hq : (i1 + b) / 12 = i1 / 12 + (i1 mod 12 + b) / 12).
  { rewrite (Z.div_mod i1 12) at 1 by lia.
    rewrite <- Z.add_assoc, Z.mul_comm, Z.div_add_l by lia. reflexivity. }
  assert (Hr : (i1 + b) mod 12 = (i1 mod 12 + b) mod 12).
  { rewrite (Z.div_mod i1 12) at 1 by lia.
    rewrite <- Z.add_assoc, Z.add_comm, Z.mul_comm, Z.mod_add by lia.
    reflexivity. }
  rewrite Hq, Hr in *. rewrite Z.add_assoc.
  f_equal. lia.
Qed.

Lemma add_months_twice_witness :
  valid_date (Date 2024 11 28) = true /\ 28 <= 28 /\
  add_months (Date 2024 11 28) 5 = Ok (Date 2025 4 28) /\
  add_months (Date 2024 1 31) 2 = Ok (Date 2024 3 31) /\
  add_months (Date 2024 2 29) 1 = Ok (Date 2024 3 29).
Proof.
  split; [reflexivity|]. split; [lia|]. split; [|split; reflexivity].
  apply (add_months_twice (Date 2024 11 28) (Date 2025 2 28) (Date 2025 4 28) 3 2);
    try reflexivity; cbn; lia.
Defined.

(** *** How a run ends *)

Lemma normalized_cell_shows (r : row) (i : nat) :
  truthy (normalize_text (nth_error r i)) = true ->
  existsb (fun cell => truthy (normalize_text (Some cell))) r = true /\
  Spec.nonblank r = true.
Proof.
  intros H. destruct (nth_error r i) as [c|] eqn:E; [|discriminate H].
  apply nth_error_In in E. split.
  - apply existsb_exists. exists c. auto.
  - unfold Spec.nonblank. apply existsb_exists. exists c. split; [exact E|].
    unfold normalize_text in H.
    destruct (mem (strip c) NA_VALUES); [discriminate H | exact H].
Qed.

(** The frequency parser raises exactly on text that reads as an
    infinite float, and then an [OverflowError]. *)
Lemma parse_frecuencia_decides (raw : option string) :
  if match raw with
     | Some s =>
         match float_of_str s with
         | Ok (FInf _) => true
         | _ => false
         end
     | None => false
     end
  then parse_frecuencia raw = builtin_error OverflowError
  else exists f, parse_frecuencia raw = Ok f.
Proof.
  unfold parse_frecuencia. destruct raw as [s|]; [|eauto].
  destruct s as [|c r]; [cbn; eauto|]. cbn [truthy].
  destruct (float_of_str (String c r)) as [x|e] eqn:E.
  - cbn [bind]. destruct x as [neg m ex|neg|]; cbn; eauto.
  - rewrite (float_of_str_raise _ _ E). cbn. eauto.
Qed.

Lemma row_new_decides (pcs : list period_column) (r : row) :
  if Spec.infinite_frequency r
  then Spec.row_new pcs r = builtin_error OverflowError
  else exists a, Spec.row_new pcs r = Ok a.
Proof.
  unfold Spec.infinite_frequency, Spec.row_new.
  rewrite (Nat.ltb_antisym base_columns (List.length r)).
  destruct (base_columns <=? List.length r)%nat; cbn [negb andb].
  2:{ destruct (negb (existsb _ r)); eauto. }
  destruct (truthy (normalize_text (nth_error r 4))) eqn:T; cbn [andb].
  - destruct (normalized_cell_shows r 4 T) as [-> _]. cbn [negb].
    destruct (normalize_text (nth_error r 4)) as [cod|]; [|discriminate T].
    pose proof (parse_frecuencia_decides (normalize_text (nth_error r 8))) as P.
    destruct (normalize_text (nth_error r 8)) as [s|].
    + destruct (float_of_str s) as [[neg m ex|neg|]|e].
      * destruct P as [f ->]. cbn [bind]. eauto.
      * rewrite P. reflexivity.
      * destruct P as [f ->]. cbn [bind]. eauto.
      * destruct P as [f ->]. cbn [bind]. eauto.
    + destruct P as [f ->]. cbn [bind]. eauto.
  - destruct (negb (existsb _ r)); [eauto|].
    destruct (normalize_text (nth_error r 4)) as [[|c cod]|] eqn:N;
      [|discriminate T | eauto].
    apply normalize_text_facts in N as [N _]. congruence.
Qed.

Lemma rows_new_decides (pcs : list period_column) (rows : list row) :
  if existsb Spec.infinite_frequency rows
  then Spec.rows_new pcs rows = builtin_error OverflowError
  else exists l, Spec.rows_new pcs rows = Ok l.
Proof.
  induction rows as [|r rest IH]; cbn [existsb Spec.rows_new]; [eauto|].
  pose proof (row_new_decides pcs r) as R.
  destruct (Spec.infinite_frequency r); cbn [orb].
  - rewrite R. reflexivity.
  - destruct R as [a ->]. cbn [bind].
    destruct (existsb Spec.infinite_frequency rest).
    + rewrite IH. reflexivity.
    + destruct IH as [l ->]. cbn [bind]. eauto.
Qed.

Lemma infinite_frequency_nonblank (r : row) :
  Spec.infinite_frequency r = true -> Spec.nonblank r = true.
Proof.
  unfold Spec.infinite_frequency. intros H.
  apply andb_prop in H as [H _]. apply andb_prop in H as [_ H].
  now apply normalized_cell_shows in H.
Qed.

Lemma existsb_filter {A : Type} (f g : A -> bool) (l : list A) :
  (forall x, f x = true -> g x = true) ->
  existsb f (filter g l) = existsb f l.
Proof.
  intros H. induction l as [|x l IH]; [reflexivity|].
  cbn [filter existsb]. destruct (g x) eqn:G.
  - cbn [existsb]. now rewrite IH.
  - rewrite IH. destruct (f x) eqn:F; [|reflexivity].
    apply H in F. congruence.
Qed.

(** X17.  How a call of [iter_events] ends, for a path that is missing or
    whose file is read through as rows: on a missing path it raises
    [FileNotFoundError] naming the path; on a file with fewer than two
    non-blank rows, [ValueError] about the headers; otherwise the first
    two non-blank rows are the headers, and the call raises
    [OverflowError] when one of the rows after them has at least nine
    cells, a code that is not absent and a frequency cell that reads as an
    infinite float, and returns when there is no such row. *)
Lemma iter_events_outcome (fs : csv_files) (csv_path : string) (empresa_id : Z) :
  match fs csv_path with
  | None =>
      iter_events fs csv_path empresa_id
      = Raise (Exn FileNotFoundError
                 (Some (u8 "No se encontró el archivo: " ++ csv_path)%string))
  | Some reader =>
      match filter Spec.nonblank reader with
      | _ :: _ :: data =>
          if existsb Spec.infinite_frequency data
          then iter_events fs csv_path empresa_id
               = Raise (Exn OverflowError None)
          else exists l, iter_events fs csv_path empresa_id = Ok l
      | _ =>
          iter_events fs csv_path empresa_id
          = Raise (Exn ValueError
                     (Some "El CSV no contiene encabezados suficientes."))
      end
  end.
Proof.
  destruct (fs csv_path) as [reader|] eqn:F;
    [|unfold iter_events; now rewrite F].
  pose proof (next_relevant_row_filter reader) as H1.
  destruct (_next_relevant_row reader) as [[yr rest]|e1] eqn:E1;
    cbn beta iota in H1.
  - pose proof (next_relevant_row_filter rest) as H2.
    destruct (_next_relevant_row rest) as [[hr data]|e2] eqn:E2;
      cbn beta iota in H2.
    + rewrite H1, H2.
      rewrite (existsb_filter _ _ data infinite_frequency_nonblank).
      rewrite (iter_events_eq _ _ _ _ _ _ _ _ F E1 E2).
      pose proof (rows_new_decides (Spec.columns_from yr 0 hr) data) as R.
      destruct (existsb Spec.infinite_frequency data).
      * rewrite R. reflexivity.
      * destruct R as [l ->]. cbn [bind]. eauto.
    + destruct H2 as [-> H2]. rewrite H1, H2.
      unfold iter_events. rewrite F, E1. cbn [bind snd]. rewrite E2. reflexivity.
  - destruct H1 as [-> H1]. rewrite H1.
    unfold iter_events. rewrite F, E1. reflexivity.
Qed.

(** The dates of the events [iter_events] returns exist in the calendar. *)
Lemma iter_events_valid_dates (fs : csv_files) (csv_path : string)
    (empresa_id : Z) (l : list CalibrationEvent) :
  iter_events fs csv_path empresa_id = Ok l ->
  Forall (fun e => valid_date (fecha e) = true) l.
Proof.
  intros H.
  destruct (iter_events_inv _ _ _ _ H)
    as (reader & rest & data & yr & hr & new & _ & _ & _ & Hn & ->).
  eapply Permutation_Forall; [apply sorted_events_perm|].
  apply Forall_forall. intros e He.
  destruct (rows_new_in _ _ _ _ Hn He) as (r & _ & a & Ha & Hea).
  destruct (row_new_in _ _ _ _ Ha Hea) as (cod & freq & pc & _ & _ & Hc).
  destruct pc as [[[idx per] lbl] y].
  destruct (cell_of_fields _ _ _ _ _ _ _ _ _ Hc) as (d & celda & Hd & ->).
  cbn [fecha].
  destruct (extract_date_ok celda) as (f & Hf & Hv). rewrite Hd in Hf.
  now injection Hf as <-.
Qed.

Lemma existsb_agree {A : Type} (f g : A -> bool) (l : list A) :
  Forall (fun x => f x = g x) l -> existsb f l = existsb g l.
Proof.
  induction 1 as [|x l Hx _ IH]; [reflexivity|].
  cbn [existsb]. now rewrite Hx, IH.
Qed.

(** [build_sql] on any list of events. *)
Lemma build_sql_cases (events : list CalibrationEvent) (empresa_id : Z) :
  if existsb Spec.overflows events
  then build_sql events empresa_id = builtin_error OverflowError
  else exists sql, build_sql events empresa_id = Ok sql.
Proof.
  destruct events as [|e rest]; [cbn [existsb]; eexists; reflexivity|].
  rewrite build_sql_eq. destruct (existsb Spec.overflows (e :: rest)); eauto.
Qed.

(** X18.  The historical branch of [main]: a failure of [iter_events]
    ends the run before anything is written.  When [iter_events] returns,
    the run ends with the [OverflowError] of [build_sql], nothing written,
    if some event has a positive frequency that carries its projected date
    into a year beyond the largest C [int]; otherwise one file is written,
    the script of the events, and the report carries their number. *)
Lemma main_historical_outcome (fs : csv_files) (input output : string)
    (empresa_id : Z) :
  match iter_events fs input empresa_id with
  | Ok events =>
      if existsb
           (fun e =>
              match frecuencia_meses e with
              | Some n =>
                  (0 <? n) &&
                  (2 ^ 31 - 1 <? Calendar.year (fecha e)
                                 + (Calendar.month (fecha e) - 1 + n) / 12)
              | None => false
              end)
           events
      then
        build_sql events empresa_id = Raise (Exn OverflowError None) /\
        main_historical fs input output empresa_id
        = Run (Some (Exn OverflowError None)) [] []
      else
        exists sql,
          build_sql events empresa_id = Ok sql /\
          main_historical fs input output empresa_id
          = Run None [(output, sql)] [Spec.report (List.length events) output]
  | Raise e => main_historical fs input output empresa_id = Run (Some e) [] []
  end.
Proof.
  unfold main_historical.
  destruct (iter_events fs input empresa_id) as [events|e] eqn:E;
    [|reflexivity].
  apply iter_events_valid_dates in E.
  assert (X : existsb Spec.overflows events
              = existsb Spec.past_int_year events).
  { apply existsb_agree. eapply Forall_impl; [|exact E].
    intros ev. apply overflows_valid. }
  change (existsb _ events) with (existsb Spec.past_int_year events).
  rewrite <- X. pose proof (build_sql_cases events empresa_id) as B.
  destruct (existsb Spec.overflows events).
  - rewrite B. split; reflexivity.
  - destruct B as [sql ->]. exists sql. split; reflexivity.
Qed.

(** A frequency cell of a hundred thousand million months is read as an
    integer, and the year of the projected date is past the C [int]:
    [iter_events] returns, [build_sql] raises and nothing is written. *)
Lemma huge_month_count_aborts_run :
  let sheet :=
    [ Sample.year_row; Sample.header_row;
      Sample.data_row "BAL-001" "" "1e11" ["10-ENE-24"; ""] ] in
  let fs := Sample.two_files sheet [] in
  iter_events fs "a.csv" 1
  = Ok [Event "BAL-001" (Date 2024 1 10) "P1" "PERIODO 1" 2024 None
               (Some 100000000000)] /\
  main_historical fs "a.csv" "out.sql" 1
  = Run (Some (Exn OverflowError None)) [] [].
Proof. split; vm_compute; reflexivity. Qed.
